(** * CLI bridge, PTY session manager and file bridge of claude-code-gui

    A shallow embedding of the Electron main-process bridges
    (file-bridge, pty-bridge, cli-bridge) and the properties the
    specification states about them.

    Conventions.
    - A JavaScript string is a [string] holding the UTF-8 bytes of its
      text, as the bridges read and write it ([encoding: 'utf-8']); an
      optional field [f?: T] is an [option T]; truthiness of an optional
      string is [truthy].
    - A [try { .. } catch] block is a function returning [Exn + A]
      ([inl msg] is a thrown [Error(msg)]).
    - Library calls of Node.js (path, os, fs, child_process, node-pty) are
      fields of the record [Node]: every theorem holds for any behaviour
      of the library; the repository's own functions are defined here.
    - Effects on the outside world are recorded in a log, so that
      "performs no syscall" and "spawns no process" are statements about
      that log. [console.log] calls are not modelled. *)

From Stdlib Require Import ZArith Ascii String List Lia Sorted Permutation.
From stdpp Require Import base decidable option list gmap strings sorting pretty.

Local Open Scope string_scope.
Local Open Scope list_scope.
Local Open Scope Z_scope.

(** ** JavaScript values and string primitives *)

Module JS.

(** The double quote character and the one-character string made of it. *)
Definition dquote_char : ascii := ascii_of_nat 34.
Definition dquote : string := String dquote_char EmptyString.

(** [a || b] on strings: the empty string is falsy. *)
Definition truthy (o : option string) : option string :=
  match o with
  | Some s => if String.eqb s EmptyString then None else Some s
  | None => None
  end.

Definition or_else (o : option string) (d : string) : string :=
  from_option id d (truthy o).

(** [s.startsWith(p)] *)
Definition startsWith (s p : string) : bool := String.prefix p s.

Definition in_range (lo hi c : ascii) : bool :=
  (N_of_ascii lo <=? N_of_ascii c)%N && (N_of_ascii c <=? N_of_ascii hi)%N.

Definition is_digit (c : ascii) : bool := in_range "0" "9" c.
Definition is_alnum (c : ascii) : bool :=
  in_range "a" "z" c || in_range "A" "Z" c || is_digit c.

Fixpoint all_chars (p : ascii -> bool) (s : string) : bool :=
  match s with
  | EmptyString => true
  | String c s' => p c && all_chars p s'
  end.

(** [/^[class]+$/.test(s)]: no [m] flag, so [$] is the end of input. *)
Definition test_plus (p : ascii -> bool) (s : string) : bool :=
  match s with
  | EmptyString => false
  | _ => all_chars p s
  end.

(** [s.replace(/c/g, by)] for a one-character pattern. *)
Fixpoint replaceAll (c : ascii) (by_ : string) (s : string) : string :=
  match s with
  | EmptyString => EmptyString
  | String d s' =>
      if Ascii.eqb d c then by_ +:+ replaceAll c by_ s'
      else String d (replaceAll c by_ s')
  end.

(** The white space [s.trim()] removes: the WhiteSpace and LineTerminator
    code points of ECMAScript. The six of ASCII (tab, line feed, vertical
    tab, form feed, carriage return, space) are one byte each and are
    [Ascii.is_space]; U+00A0 is two bytes; U+1680, U+2000 to U+200A,
    U+2028, U+2029, U+202F, U+205F, U+3000 and U+FEFF are three. *)
Definition ws2 (a b : ascii) : bool :=
  Ascii.eqb a "194" && Ascii.eqb b "160".

Definition ws3 (a b c : ascii) : bool :=
  (Ascii.eqb a "225" && Ascii.eqb b "154" && Ascii.eqb c "128")
  || (Ascii.eqb a "226" && Ascii.eqb b "128"
      && (in_range "128" "138" c || Ascii.eqb c "168" || Ascii.eqb c "169"
          || Ascii.eqb c "175"))
  || (Ascii.eqb a "226" && Ascii.eqb b "129" && Ascii.eqb c "159")
  || (Ascii.eqb a "227" && Ascii.eqb b "128" && Ascii.eqb c "128")
  || (Ascii.eqb a "239" && Ascii.eqb b "187" && Ascii.eqb c "191").

(** Drop the white space [s] begins with; [two] and [three] recognise the
    code points of two and of three bytes. *)
Fixpoint strip (two : ascii -> ascii -> bool)
  (three : ascii -> ascii -> ascii -> bool) (s : string) : string :=
  match s with
  | EmptyString => EmptyString
  | String a s1 =>
      if Ascii.is_space a then strip two three s1
      else
        match s1 with
        | String b s2 =>
            if two a b then strip two three s2
            else
              match s2 with
              | String c s3 =>
                  if three a b c then strip two three s3 else s
              | EmptyString => s
              end
        | EmptyString => s
        end
  end.

(** [s.trimStart()] *)
Definition trimStart (s : string) : string := strip ws2 ws3 s.

(** [s.trimEnd()] on the reversed text, where the bytes of a code point
    come last byte first. *)
Definition trimStartRev (s : string) : string :=
  strip (fun b a => ws2 a b) (fun c b a => ws3 a b c) s.

(** [s.trim()] *)
Definition trim (s : string) : string :=
  String.rev (trimStartRev (String.rev (trimStart s))).

(** [s.split('\n')[0]] *)
Fixpoint firstLine (s : string) : string :=
  match s with
  | EmptyString => EmptyString
  | String c s' =>
      if Ascii.eqb c "010" then EmptyString else String c (firstLine s')
  end.

Definition newline : string := String "010" EmptyString.

(** Put [c] in front of the first string of [ws]. *)
Definition cons_char (c : ascii) (ws : list string) : list string :=
  match ws with
  | w :: ws' => String c w :: ws'
  | [] => [String c EmptyString]
  end.

(** [s.split(c)] for a one-character separator. *)
Fixpoint split (c : ascii) (s : string) : list string :=
  match s with
  | EmptyString => [EmptyString]
  | String d s' =>
      if Ascii.eqb d c then EmptyString :: split c s'
      else cons_char d (split c s')
  end.

(** [xs.join(sep)] *)
Definition join (sep : string) (xs : list string) : string :=
  String.concat sep xs.

(** [xs.filter(Boolean)] on strings *)
Definition filterBoolean (xs : list string) : list string :=
  List.filter (fun s => negb (String.eqb s EmptyString)) xs.

(** [xs.sort()] with the default comparison (code-unit order), and
    [xs.sort().reverse()[0]]. *)
Definition sortStrings (xs : list string) : list string :=
  merge_sort String.le xs.

Definition sortReverseHead (xs : list string) : option string :=
  head (reverse (sortStrings xs)).

(** [xs.includes(x)] *)
Definition includes (xs : list string) (x : string) : bool :=
  existsb (String.eqb x) xs.

End JS.

(** ** Shell escaping (pty-bridge [shellEscape], cli-bridge fallback) *)

Module Escape.
Import JS.

(** [[a-zA-Z0-9._\-/=]] *)
Definition posixSafe (c : ascii) : bool :=
  is_alnum c
  || Ascii.eqb c "." || Ascii.eqb c "_" || Ascii.eqb c "-"
  || Ascii.eqb c "/" || Ascii.eqb c "=".

(** [[a-zA-Z0-9._\-/\\:=]] *)
Definition winSafe (c : ascii) : bool :=
  is_alnum c
  || Ascii.eqb c "." || Ascii.eqb c "_" || Ascii.eqb c "-"
  || Ascii.eqb c "/" || Ascii.eqb c "\" || Ascii.eqb c ":"
  || Ascii.eqb c "=".

(** The POSIX branch: wrap in single quotes, each embedded single quote
    written as close-quote, backslash-quote, open-quote. *)
Definition posixQuote (arg : string) : string :=
  "'" +:+ replaceAll "'" "'\''" arg +:+ "'".

Definition winQuote (arg : string) : string :=
  dquote +:+ replaceAll dquote_char (dquote +:+ dquote) arg +:+ dquote.

Definition shellEscape (isWin : bool) (arg : string) : string :=
  if isWin then
    if test_plus winSafe arg then arg else winQuote arg
  else
    if test_plus posixSafe arg then arg else posixQuote arg.

(** The anonymous function mapped over [cmdParts] in [spawnClaude]. *)
Definition cliEscape (a : string) : string :=
  if test_plus posixSafe a then a
  else "'" +:+ replaceAll "'" "'\''" a +:+ "'".

End Escape.

(** ** Reference semantics of the target shell

    Field splitting and quote removal of the POSIX shell command language
    (XCU 2.2 Quoting, 2.6.5 Field Splitting), for command lines whose
    words need no expansion. The lexer answers [None] on anything whose
    value it does not define: an unquoted operator, an expansion
    character, a pattern character, an unterminated quote. *)

Module Sh.

Inductive Mode := Unquoted | InSingle | InDouble.

Definition is_blank (c : ascii) : bool :=
  Ascii.eqb c " " || Ascii.eqb c "009".

(** Characters that stand for themselves outside quotes. *)
Definition plain (c : ascii) : bool :=
  JS.is_alnum c
  || Ascii.eqb c "." || Ascii.eqb c "_" || Ascii.eqb c "-"
  || Ascii.eqb c "/" || Ascii.eqb c "=" || Ascii.eqb c ":"
  || Ascii.eqb c "," || Ascii.eqb c "+" || Ascii.eqb c "@"
  || Ascii.eqb c "%".

(** Inside double quotes a backslash escapes only these. *)
Definition dq_escapable (c : ascii) : bool :=
  Ascii.eqb c "$" || Ascii.eqb c "`" || Ascii.eqb c JS.dquote_char
  || Ascii.eqb c "\".

(** Put [c] in front of the word in progress, the head of [ws]. *)
Definition push (c : ascii) (ws : list string) : list string :=
  match ws with
  | w :: ws' => String c w :: ws'
  | [] => [String c EmptyString]
  end.

(** [lex m inword s]: the fields of [s] read in mode [m]; when [inword]
    holds, the first field continues the word already begun. *)
Fixpoint lex (m : Mode) (inword : bool) (s : string) : option (list string) :=
  match s with
  | EmptyString =>
      match m with
      | Unquoted => Some (if inword then [EmptyString] else [])
      | _ => None
      end
  | String c s' =>
      match m with
      | Unquoted =>
          if is_blank c then
            ws ← lex Unquoted false s';
            Some (if inword then EmptyString :: ws else ws)
          else if Ascii.eqb c "'" then lex InSingle true s'
          else if Ascii.eqb c JS.dquote_char then lex InDouble true s'
          else if Ascii.eqb c "\" then
            match s' with
            | EmptyString => None
            | String d s'' =>
                if Ascii.eqb d "010" then lex Unquoted inword s''
                else push d <$> lex Unquoted true s''
            end
          else if plain c then push c <$> lex Unquoted true s'
          else None
      | InSingle =>
          if Ascii.eqb c "'" then lex Unquoted true s'
          else push c <$> lex InSingle true s'
      | InDouble =>
          if Ascii.eqb c JS.dquote_char then lex Unquoted true s'
          else if Ascii.eqb c "\" then
            match s' with
            | EmptyString => None
            | String d s'' =>
                if Ascii.eqb d "010" then lex InDouble true s''
                else if dq_escapable d then push d <$> lex InDouble true s''
                else push c <$> (push d <$> lex InDouble true s'')
            end
          else if Ascii.eqb c "$" || Ascii.eqb c "`" then None
          else push c <$> lex InDouble true s'
      end
  end.

(** The fields of a command line. *)
Definition fields (s : string) : option (list string) := lex Unquoted false s.

(** The value of a text that is one word. *)
Definition word (s : string) : option string :=
  match fields s with
  | Some [w] => Some w
  | _ => None
  end.

(** [prepend s ws]: the characters of [s] pushed in front of the word in
    progress. *)
Fixpoint prepend (s : string) (ws : list string) : list string :=
  match s with
  | EmptyString => ws
  | String c s' => push c (prepend s' ws)
  end.

End Sh.

(** ** The Node.js platform

    What the bridges import from [os], [path], [fs], [child_process],
    [node-pty] and the process object. [FS] is the state of the file
    system; a call that can throw returns [Exn + _]. *)

Definition Exn := string.

Inductive FileKind := KFile | KDir | KOther.

(** [fs.Stats], the fields the bridges read. *)
Record Stats := {
  st_kind : FileKind;
  st_size : Z;
  st_mtimeMs : Z
}.

Definition isDirectory (s : Stats) : bool :=
  match st_kind s with KDir => true | _ => false end.

Definition isFile (s : Stats) : bool :=
  match st_kind s with KFile => true | _ => false end.

(** Methods of a node-pty process object that the handlers call. *)
Inductive PtyOp :=
| PtyWrite (pid : Z) (data : string)
| PtyResize (pid : Z) (cols rows : Z)
| PtyKill (pid : Z).

Record Node (FS : Type) := {
  (* process, os *)
  isWin : bool;
  homedir : string;
  tmpdir : string;
  process_cwd : string;
  process_env : gmap string string;
  date_now : nat -> Z;
  (* path, String.prototype *)
  path_resolve : string -> string;
  path_join : list string -> string;
  path_dirname : string -> string;
  path_extname : string -> string;
  path_relative : string -> string -> string;
  toLowerCase : string -> string;
  (* fs *)
  existsSync : FS -> string -> bool;
  readFileSync : FS -> string -> Exn + string;
  writeFileSync : FS -> string -> string -> Exn + FS;
  mkdirSync : FS -> string -> Exn + FS;
  readdirSync : FS -> string -> Exn + list string;
  statSync : FS -> string -> Exn + Stats;
  unlinkSync : FS -> string -> Exn + FS;
  realpathSync : FS -> string -> Exn + string;
  (* child_process, node-pty, electron *)
  execSync : string -> gmap string string -> Exn + string;
  pty_spawn : string -> list string -> string -> gmap string string -> Exn + Z;
  pty_throws : PtyOp -> option Exn;
  isDestroyed : nat -> bool
}.

Arguments isWin {FS} _.
Arguments homedir {FS} _.
Arguments tmpdir {FS} _.
Arguments process_cwd {FS} _.
Arguments process_env {FS} _.
Arguments date_now {FS} _ _.
Arguments path_resolve {FS} _ _.
Arguments path_join {FS} _ _.
Arguments path_dirname {FS} _ _.
Arguments path_extname {FS} _ _.
Arguments path_relative {FS} _ _ _.
Arguments toLowerCase {FS} _ _.
Arguments existsSync {FS} _ _ _.
Arguments readFileSync {FS} _ _ _.
Arguments writeFileSync {FS} _ _ _ _.
Arguments mkdirSync {FS} _ _ _.
Arguments readdirSync {FS} _ _ _.
Arguments statSync {FS} _ _ _.
Arguments unlinkSync {FS} _ _ _.
Arguments realpathSync {FS} _ _ _.
Arguments execSync {FS} _ _ _.
Arguments pty_spawn {FS} _ _ _ _ _.
Arguments pty_throws {FS} _ _.
Arguments isDestroyed {FS} _ _.

(** [path.sep] and [path.delimiter] *)
Definition sep {FS} (node : Node FS) : string :=
  if isWin node then "\" else "/".

Definition delimiter {FS} (node : Node FS) : string :=
  if isWin node then ";" else ":".


(** ** File bridge: path guard, file handlers, activity scan *)

Module FileBridge.
Import JS.

(** A call into [fs], as the kernel sees it. *)
Inductive Syscall :=
| SysExists (p : string)
| SysReadFile (p : string)
| SysMkdir (p : string)
| SysWriteFile (p content : string)
| SysReaddir (p : string)
| SysStat (p : string)
| SysUnlink (p : string).

Record World (FS : Type) := {
  w_fs : FS;
  w_log : list Syscall
}.
Arguments Build_World {FS} _ _.
Arguments w_fs {FS} _.
Arguments w_log {FS} _.

(** Code that may throw and may touch the file system. State written
    before a throw stays written. *)
Definition IO (FS A : Type) : Type := World FS -> (Exn + A) * World FS.

Global Instance io_ret {FS} : MRet (IO FS) :=
  fun A (a : A) w => (inr a, w).

Global Instance io_bind {FS} : MBind (IO FS) :=
  fun A B (f : A -> IO FS B) (m : IO FS A) w =>
    match m w with
    | (inr a, w') => f a w'
    | (inl e, w') => (inl e, w')
    end.

Definition lift {FS A} (r : Exn + A) : IO FS A := fun w => (r, w).

(** [try { body } catch (error) { handler(error.message) }] *)
Definition try_catch {FS A} (body : IO FS A) (handler : Exn -> A)
  : World FS -> A * World FS :=
  fun w =>
    match body w with
    | (inr a, w') => (a, w')
    | (inl e, w') => (handler e, w')
    end.

Record ReadResult := {
  rr_exists : bool;
  rr_content : option string;
  rr_error : option string
}.

Record OpResult := {
  or_success : bool;
  or_error : option string
}.

Record DirEntry := {
  de_name : string;
  de_path : string;
  de_isDirectory : bool;
  de_isFile : bool;
  de_size : Z;
  de_modified : Z;
  de_ext : string
}.

Record ListResult := {
  lr_exists : bool;
  lr_entries : list DirEntry;
  lr_error : option string
}.

Inductive Location := Project | Scratchpad | ClaudeConfig | OtherLocation.

Record ActivityFile := {
  af_name : string;
  af_path : string;
  af_relativePath : string;
  af_size : Z;
  af_modified : Z;
  af_ext : string;
  af_location : Location
}.

Record ScanOptions := {
  projectDir : string;
  sinceMs : Z;
  maxDepth : option Z
}.

(** The two variables the scan mutates. *)
Record ScanState := {
  results : list ActivityFile;
  seen : gset string
}.

Section WithNode.
Context {FS : Type} (node : Node FS).

(** The condition of [validatePath] on the resolved path. *)
Definition allowedPath (resolved : string) : bool :=
  let home := homedir node in
  let tmp := tmpdir node in
  String.eqb resolved home
  || startsWith resolved (home +:+ sep node)
  || String.eqb resolved tmp
  || startsWith resolved (tmp +:+ sep node)
  || (negb (isWin node)
      && (startsWith resolved "/tmp/" || String.eqb resolved "/tmp")).

Definition accessDenied (resolved : string) : Exn :=
  "Access denied: path " +:+ dquote +:+ resolved +:+ dquote
  +:+ " is outside allowed directories (home: " +:+ homedir node
  +:+ ", tmp: " +:+ tmpdir node +:+ ")".

Definition validatePath (inputPath : string) : Exn + string :=
  let resolved := path_resolve node inputPath in
  if allowedPath resolved then inr resolved
  else inl (accessDenied resolved).

(** The [fs] calls, logged. *)
Definition sys_exists (p : string) : IO FS bool :=
  fun w => (inr (existsSync node (w_fs w) p),
            Build_World (w_fs w) (w_log w ++ [SysExists p])).

Definition sys_readFile (p : string) : IO FS string :=
  fun w => (readFileSync node (w_fs w) p,
            Build_World (w_fs w) (w_log w ++ [SysReadFile p])).

Definition sys_readdir (p : string) : IO FS (list string) :=
  fun w => (readdirSync node (w_fs w) p,
            Build_World (w_fs w) (w_log w ++ [SysReaddir p])).

Definition sys_stat (p : string) : IO FS Stats :=
  fun w => (statSync node (w_fs w) p,
            Build_World (w_fs w) (w_log w ++ [SysStat p])).

Definition sys_update (call : Syscall) (r : Exn + FS) : IO FS unit :=
  fun w =>
    match r with
    | inr fs' => (inr tt, Build_World fs' (w_log w ++ [call]))
    | inl e => (inl e, Build_World (w_fs w) (w_log w ++ [call]))
    end.

Definition sys_mkdir (p : string) : IO FS unit :=
  fun w => sys_update (SysMkdir p) (mkdirSync node (w_fs w) p) w.

Definition sys_writeFile (p content : string) : IO FS unit :=
  fun w => sys_update (SysWriteFile p content)
             (writeFileSync node (w_fs w) p content) w.

Definition sys_unlink (p : string) : IO FS unit :=
  fun w => sys_update (SysUnlink p) (unlinkSync node (w_fs w) p) w.

(** [fs:read] *)
Definition fs_read (filePath : string) : World FS -> ReadResult * World FS :=
  try_catch
    (safePath ← lift (validatePath filePath);
     ex ← sys_exists safePath;
     if negb ex then mret (Build_ReadResult false None None)
     else
       content ← sys_readFile safePath;
       mret (Build_ReadResult true (Some content) None))
    (fun msg => Build_ReadResult false None (Some msg)).

(** [fs:write] *)
Definition fs_write (filePath content : string)
  : World FS -> OpResult * World FS :=
  try_catch
    (safePath ← lift (validatePath filePath);
     let dir := path_dirname node safePath in
     ex ← sys_exists dir;
     _ ← (if negb ex then sys_mkdir dir else mret tt);
     _ ← sys_writeFile safePath content;
     mret (Build_OpResult true None))
    (fun msg => Build_OpResult false (Some msg)).

(** [fs:exists] *)
Definition fs_exists (filePath : string) : World FS -> bool * World FS :=
  try_catch
    (safePath ← lift (validatePath filePath);
     sys_exists safePath)
    (fun _ => false).

Definition dirEntry (safePath name : string) : IO FS DirEntry :=
  let fullPath := path_join node [safePath; name] in
  stat ← sys_stat fullPath;
  mret {| de_name := name;
          de_path := fullPath;
          de_isDirectory := isDirectory stat;
          de_isFile := isFile stat;
          de_size := st_size stat;
          de_modified := st_mtimeMs stat;
          de_ext := path_extname node name |}.

Fixpoint mapIO {A B} (f : A -> IO FS B) (xs : list A) : IO FS (list B) :=
  match xs with
  | [] => mret []
  | x :: xs' => y ← f x; ys ← mapIO f xs'; mret (y :: ys)
  end.

(** [fs:list-dir] *)
Definition fs_list_dir (dirPath : string) : World FS -> ListResult * World FS :=
  try_catch
    (safePath ← lift (validatePath dirPath);
     ex ← sys_exists safePath;
     if negb ex then mret (Build_ListResult false [] None)
     else
       names ← sys_readdir safePath;
       entries ← mapIO (dirEntry safePath) names;
       mret (Build_ListResult true entries None))
    (fun msg => Build_ListResult false [] (Some msg)).

(** [fs:delete] *)
Definition fs_delete (filePath : string) : World FS -> OpResult * World FS :=
  try_catch
    (safePath ← lift (validatePath filePath);
     ex ← sys_exists safePath;
     _ ← (if (ex : bool) then sys_unlink safePath else mret tt);
     mret (Build_OpResult true None))
    (fun msg => Build_OpResult false (Some msg)).

(** The directories [validatePath] opens: the home directory, the temp
    directory, and off Windows also [/tmp]. *)
Definition allowedRoots : list string :=
  homedir node :: tmpdir node :: (if isWin node then [] else ["/tmp"]).

(** The calls a run added to the log. *)
Definition extends (w w' : World FS) (new : list Syscall) : Prop :=
  w_log w' = w_log w ++ new.

(** The path a call into [fs] is made on. *)
Definition syscallPath (c : Syscall) : string :=
  match c with
  | SysExists p | SysReadFile p | SysMkdir p | SysWriteFile p _
  | SysReaddir p | SysStat p | SysUnlink p => p
  end.

(** *** [fs:scan-activity]

    The scan only reads the file system; it is written against the [fs]
    calls directly, on the file system [fs] it runs in. *)

Section Scan.
Variable fs : FS.
Variable opts : ScanOptions.

(** Names skipped as noise. *)
Definition isNoise (name : string) : bool :=
  String.eqb name "node_modules" || String.eqb name ".git"
  || String.eqb name ".DS_Store" || String.eqb name "__pycache__".

Definition relativePathOf (fullPath : string) : string :=
  if startsWith fullPath (projectDir opts)
  then path_relative node (projectDir opts) fullPath
  else if startsWith fullPath (homedir node)
  then "~/" +:+ path_relative node (homedir node) fullPath
  else fullPath.

(** [extname(name).slice(1).toLowerCase()] *)
Definition extOf (name : string) : string :=
  toLowerCase node (String.substring 1 (String.length (path_extname node name))
                      (path_extname node name)).

Definition activityFile (name fullPath : string) (stat : Stats)
  (location : Location) : ActivityFile :=
  {| af_name := name;
     af_path := fullPath;
     af_relativePath := relativePathOf fullPath;
     af_size := st_size stat;
     af_modified := st_mtimeMs stat;
     af_ext := extOf name;
     af_location := location |}.

(** [scanDir]. The first argument counts the levels still open:
    [levels = maxDepth + 1 - depth], so [levels = 0] is the guard
    [depth > maxDepth], and the recursive call at [depth + 1] has one
    level less. The body of the [for] loop is [visit]. *)
Fixpoint scanDir (levels : nat) (dir : string) (location : Location)
  (st : ScanState) : ScanState :=
  match levels with
  | O => st
  | S levels' =>
      if negb (existsSync node fs dir) then st
      else
        match readdirSync node fs dir with
        | inl _ => st
        | inr entries =>
            fold_left
              (fun st name =>
                 if isNoise name then st
                 else
                   let fullPath := path_join node [dir; name] in
                   if decide (fullPath ∈ seen st) then st
                   else
                     let st := {| results := results st;
                                  seen := {[fullPath]} ∪ seen st |} in
                     match statSync node fs fullPath with
                     | inl _ => st
                     | inr stat =>
                         if isDirectory stat
                         then scanDir levels' fullPath location st
                         else if isFile stat && (sinceMs opts <=? st_mtimeMs stat)
                         then {| results :=
                                   results st
                                   ++ [activityFile name fullPath stat location];
                                 seen := seen st |}
                         else st
                     end)
              entries st
        end
  end.

(** Every file found so far is recent enough. *)
Definition recent (st : ScanState) : Prop :=
  Forall (fun f => sinceMs opts <= af_modified f) (results st).

(** [maxDepth = 6] when the option is absent. *)
Definition maxDepthOf : Z := from_option id 6 (maxDepth opts).

(** [scanDir(dir, location)], that is at depth 0. *)
Definition scanRoot (dir : string) (location : Location) (st : ScanState)
  : ScanState :=
  scanDir (Z.to_nat (maxDepthOf + 1)) dir location st.

Definition tmpDirs : list string :=
  if isWin node then [tmpdir node] else ["/private/tmp"; "/tmp"].

(** Step 2; a throwing [readdirSync] leaves the whole [try] block. *)
Fixpoint scanScratchpads (bases : list string) (st : ScanState) : ScanState :=
  match bases with
  | [] => st
  | tmpBase :: rest =>
      if negb (existsSync node fs tmpBase) then scanScratchpads rest st
      else
        match readdirSync node fs tmpBase with
        | inl _ => st
        | inr entries =>
            scanScratchpads rest
              (fold_left
                 (fun st entry =>
                    if startsWith entry "claude-"
                    then scanRoot (path_join node [tmpBase; entry]) Scratchpad st
                    else st)
                 entries st)
        end
  end.

(** The comparator [(a, b) => b.modified - a.modified] is not positive
    exactly when [a] may stay before [b]. Modification times are read in
    whole milliseconds, and the order among files of equal time, which
    [Array.prototype.sort] keeps as found, is left open. *)
Definition newerFirst (a b : ActivityFile) : Prop :=
  af_modified b <= af_modified a.

Global Instance newerFirst_dec : RelDecision newerFirst.
Proof. intros a b. unfold newerFirst. apply _. Defined.

Definition fs_scan_activity : list ActivityFile :=
  let st0 := {| results := []; seen := ∅ |} in
  let st1 :=
    if existsSync node fs (projectDir opts)
    then scanRoot (projectDir opts) Project st0 else st0 in
  let st2 := scanScratchpads tmpDirs st1 in
  let claudeProjectDir := path_join node [homedir node; ".claude"; "projects"] in
  let st3 :=
    if existsSync node fs claudeProjectDir
    then scanRoot claudeProjectDir ClaudeConfig st2 else st2 in
  merge_sort newerFirst (results st3).

End Scan.
End WithNode.
End FileBridge.

(** ** PTY bridge: environment builder, binary resolver, session registry *)

Module PtyBridge.
Import JS Escape.

Record PtySession := {
  ps_id : string;
  ps_ptyProcess : Z;
  ps_sender : nat;
  ps_model : string;
  ps_cwd : string;
  ps_startTime : Z
}.

(** What the bridge does to the outside world. *)
Inductive Effect :=
| EExecSync (cmd : string) (env : gmap string string)
| EPtySpawn (shell : string) (args : list string) (cwd : string)
    (env : gmap string string)
| EPtyCall (op : PtyOp)
| ESendData (sender : nat) (id data : string)
| ESendExit (sender : nat) (id : string) (exitCode signal : Z).

Definition isPtySpawn (e : Effect) : bool :=
  match e with
  | EPtySpawn _ _ _ _ => true
  | _ => false
  end.

(** The module-level variables [sessions], [counter] and
    [_cachedLoginPath]; [clock] counts the readings of [Date.now()]. *)
Record State := {
  sessions : gmap string PtySession;
  counter : N;
  cachedLoginPath : option string;
  clock : nat;
  effects : list Effect
}.

Definition initial : State :=
  {| sessions := ∅; counter := 0; cachedLoginPath := None; clock := 0;
     effects := [] |}.

Definition set_sessions (m : gmap string PtySession) (st : State) : State :=
  {| sessions := m; counter := counter st;
     cachedLoginPath := cachedLoginPath st; clock := clock st;
     effects := effects st |}.

Definition set_counter (n : N) (st : State) : State :=
  {| sessions := sessions st; counter := n;
     cachedLoginPath := cachedLoginPath st; clock := clock st;
     effects := effects st |}.

Definition set_cachedLoginPath (p : string) (st : State) : State :=
  {| sessions := sessions st; counter := counter st;
     cachedLoginPath := Some p; clock := clock st;
     effects := effects st |}.

Definition emit (e : Effect) (st : State) : State :=
  {| sessions := sessions st; counter := counter st;
     cachedLoginPath := cachedLoginPath st; clock := clock st;
     effects := effects st ++ [e] |}.

Definition ALLOWED_MODELS : list string :=
  [ "opus"; "sonnet"; "haiku";
    "claude-3-opus"; "claude-3-sonnet"; "claude-3-haiku";
    "claude-sonnet-4-5-20250929"; "claude-opus-4-6" ].

Record SpawnOptions := {
  so_cwd : option string;
  so_model : option string;
  so_args : option (list string);
  so_shell : option bool
}.

(** [{ id, pid }] or [{ id: null, error }] *)
Inductive SpawnResult :=
| Spawned (id : string) (pid : Z)
| SpawnError (error : string).

(** An entry of [pty:list-sessions]. *)
Record SessionInfo := {
  si_id : string;
  si_pid : Z;
  si_model : string;
  si_cwd : string;
  si_startTime : Z;
  si_active : bool
}.

(** [/^v?\d+/.test(v)] *)
Definition isVersionName (v : string) : bool :=
  match v with
  | String "v" (String d _) => is_digit d
  | String d _ => is_digit d
  | EmptyString => false
  end.

(** [s.includes(sub)] *)
Definition strIncludes (s sub : string) : bool :=
  bool_decide (is_Some (String.index 0 sub s)).

Section WithNode.
Context {FS : Type} (node : Node FS).

Definition env_var (name : string) : option string :=
  process_env node !! name.

(** [Date.now()] *)
Definition dateNow (st : State) : Z * State :=
  (date_now node (clock st),
   {| sessions := sessions st; counter := counter st;
      cachedLoginPath := cachedLoginPath st; clock := S (clock st);
      effects := effects st |}).

Definition loginShellProbe : string :=
  or_else (env_var "SHELL") "/bin/zsh" +:+ " -ilc 'echo $PATH'".

Definition getLoginShellPath (st : State) : string * State :=
  match cachedLoginPath st with
  | Some p => (p, st)
  | None =>
      if isWin node then (EmptyString, set_cachedLoginPath EmptyString st)
      else
        let st := emit (EExecSync loginShellProbe (process_env node)) st in
        match execSync node loginShellProbe (process_env node) with
        | inr out =>
            let result := trim out in
            if String.eqb result EmptyString
            then (EmptyString, set_cachedLoginPath EmptyString st)
            else (result, set_cachedLoginPath result st)
        | inl _ => (EmptyString, set_cachedLoginPath EmptyString st)
        end
  end.

(** The newest version directory under [dir], among the names [keep]
    accepts: [versions.sort().reverse()[0]]. *)
Definition latestVersion (fs : FS) (dir : string) (keep : string -> bool)
  : option string :=
  if existsSync node fs dir then
    match readdirSync node fs dir with
    | inr versions => sortReverseHead (List.filter keep versions)
    | inl _ => None
    end
  else None.

Definition fixedDirs : list string :=
  let home := homedir node in
  if isWin node then
    [ path_join node [home; "AppData"; "Roaming"; "npm"];
      path_join node [home; ".cargo"; "bin"];
      path_join node [home; ".bun"; "bin"] ]
  else
    [ path_join node [home; ".npm-global"; "bin"];
      path_join node [home; ".local"; "bin"];
      path_join node [home; ".bun"; "bin"];
      "/usr/local/bin";
      "/opt/homebrew/bin";
      path_join node [home; ".cargo"; "bin"] ].

Definition versionDir (fs : FS) : list string :=
  let home := homedir node in
  if isWin node then
    let nvmWinDir := path_join node [home; "AppData"; "Roaming"; "nvm"] in
    match latestVersion fs nvmWinDir isVersionName with
    | Some latest => [path_join node [nvmWinDir; latest]]
    | None => []
    end
  else
    let nvmDir := path_join node [home; ".nvm"; "versions"; "node"] in
    match latestVersion fs nvmDir (fun _ => true) with
    | Some latest => [path_join node [nvmDir; latest; "bin"]]
    | None => []
    end.

Definition extraPaths (fs : FS) : list string := fixedDirs ++ versionDir fs.

(** [process.env.PATH || ''] *)
Definition systemPath : string := or_else (env_var "PATH") EmptyString.

Definition buildUserPath (fs : FS) (st : State) : string * State :=
  let '(loginPath, st) := getLoginShellPath st in
  (join (delimiter node)
     (filterBoolean (extraPaths fs ++ [loginPath; systemPath])),
   st).

Definition candidates : list string :=
  let home := homedir node in
  if isWin node then
    [ path_join node [home; "AppData"; "Roaming"; "npm"; "claude.cmd"];
      path_join node [home; "AppData"; "Roaming"; "npm"; "claude"];
      path_join node [home; ".npm-global"; "bin"; "claude"];
      path_join node [home; ".bun"; "bin"; "claude"] ]
  else
    [ path_join node [home; ".npm-global"; "bin"; "claude"];
      "/usr/local/bin/claude";
      path_join node [home; ".local"; "bin"; "claude"];
      path_join node [home; ".bun"; "bin"; "claude"];
      "/opt/homebrew/bin/claude" ].

Definition locateCommand : string :=
  if isWin node then "where claude" else "which claude".

Definition getClaudePath (fs : FS) (st : State) : string * State :=
  match List.find (existsSync node fs) candidates with
  | Some c => (c, st)
  | None =>
      let '(richPath, st) := buildUserPath fs st in
      let env := <["PATH" := richPath]> (process_env node) in
      let st := emit (EExecSync locateCommand env) st in
      match execSync node locateCommand env with
      | inr out => (firstLine (trim out), st)
      | inl _ => ("claude", st)
      end
  end.

(** *** The handlers of [registerPtyHandlers]

    [claudePath] is computed once, when the handlers are registered. *)

Section Handlers.
Variable claudePath : string.

Definition invalidModel (model : string) : string :=
  "Invalid model: " +:+ dquote +:+ model +:+ dquote +:+ ". Allowed: "
  +:+ join ", " ALLOWED_MODELS.

(** [claudeArgs], built the same way on both platform branches: the
    launcher, then [--model m] for a truthy and allowed model, then the
    caller's arguments. A truthy model outside the list returns early. *)
Definition claudeArgs (options : SpawnOptions) : Exn + list string :=
  let args := from_option id [] (so_args options) in
  match truthy (so_model options) with
  | Some model =>
      if negb (includes ALLOWED_MODELS model) then inl (invalidModel model)
      else inr ([claudePath] ++ ["--model"; model] ++ args)%list
  | None => inr ([claudePath] ++ args)%list
  end.

Definition claudeCmd (options : SpawnOptions) : Exn + string :=
  match claudeArgs options with
  | inr parts => inr (join " " (map (shellEscape (isWin node)) parts))
  | inl e => inl e
  end.

(** [options.shell] as a condition *)
Definition rawShell (options : SpawnOptions) : bool :=
  from_option id false (so_shell options).

Definition shellOf : string :=
  if isWin node then or_else (env_var "COMSPEC") "powershell.exe"
  else or_else (env_var "SHELL") "/bin/zsh".

Definition isPowerShell : bool :=
  strIncludes (toLowerCase node shellOf) "powershell"
  || strIncludes (toLowerCase node shellOf) "pwsh".

(** [shellArgs], or the early return of the model check. *)
Definition shellArgs (options : SpawnOptions) : Exn + list string :=
  if isWin node then
    if rawShell options then inr []
    else
      match claudeCmd options with
      | inr cmd =>
          inr (if isPowerShell then ["-NoProfile"; "-Command"; cmd]
               else ["/c"; cmd])
      | inl e => inl e
      end
  else
    if rawShell options then inr ["-l"]
    else
      match claudeCmd options with
      | inr cmd => inr ["-l"; "-c"; cmd]
      | inl e => inl e
      end.

Definition spawnEnv (path : string) : gmap string string :=
  <["COLORTERM" := "truecolor"]>
    (<["TERM" := "xterm-256color"]>
       (<["PATH" := path]> (process_env node))).

Definition sessionId (n : N) (now : Z) : string :=
  "pty-" +:+ pretty n +:+ "-" +:+ pretty now.

(** [pty:spawn], called by the window [sender]. *)
Definition pty_spawn_handler (fs : FS) (sender : nat) (options : SpawnOptions)
  (st : State) : SpawnResult * State :=
  let st := set_counter (counter st + 1) st in
  let '(now, st) := dateNow st in
  let id := sessionId (counter st) now in
  let cwd := or_else (so_cwd options) (homedir node) in
  let '(path, st) := buildUserPath fs st in
  let env := spawnEnv path in
  match shellArgs options with
  | inl error => (SpawnError error, st)
  | inr args =>
      let st := emit (EPtySpawn shellOf args cwd env) st in
      match pty_spawn node shellOf args cwd env with
      | inr pid =>
          let '(startTime, st) := dateNow st in
          let session :=
            {| ps_id := id; ps_ptyProcess := pid; ps_sender := sender;
               ps_model := or_else (so_model options) "default";
               ps_cwd := cwd; ps_startTime := startTime |} in
          (Spawned id pid, set_sessions (<[id := session]> (sessions st)) st)
      | inl message => (SpawnError message, st)
      end
  end.

(** The [onData] and [onExit] callbacks registered for [session]. *)
Definition on_data (session : PtySession) (data : string) (st : State) : State :=
  if negb (isDestroyed node (ps_sender session))
  then emit (ESendData (ps_sender session) (ps_id session) data) st
  else st.

Definition on_exit (session : PtySession) (exitCode signal : Z) (st : State)
  : State :=
  let st :=
    if negb (isDestroyed node (ps_sender session))
    then emit (ESendExit (ps_sender session) (ps_id session) exitCode signal) st
    else st in
  set_sessions (delete (ps_id session) (sessions st)) st.

(** A method call on a pty process: logged, and it may throw. *)
Definition pty_call (op : PtyOp) (st : State) : option Exn * State :=
  (pty_throws node op, emit (EPtyCall op) st).

(** [pty:write]; the first component is the exception that escapes the
    listener, if any. *)
Definition pty_write (id data : string) (st : State) : option Exn * State :=
  match sessions st !! id with
  | Some session => pty_call (PtyWrite (ps_ptyProcess session) data) st
  | None => (None, st)
  end.

(** [pty:resize] *)
Definition pty_resize (id : string) (cols rows : Z) (st : State)
  : option Exn * State :=
  match sessions st !! id with
  | Some session =>
      (None, snd (pty_call (PtyResize (ps_ptyProcess session) cols rows) st))
  | None => (None, st)
  end.

(** [pty:kill] *)
Definition pty_kill (id : string) (st : State) : option Exn * State :=
  match sessions st !! id with
  | Some session =>
      match pty_call (PtyKill (ps_ptyProcess session)) st with
      | (Some e, st) => (Some e, st)
      | (None, st) => (None, set_sessions (delete id (sessions st)) st)
      end
  | None => (None, st)
  end.

(** [pty:list-sessions]. The entries come in the iteration order of the
    registry; the model fixes no order between sessions, so only
    order-independent facts are stated about this list. *)
Definition sessionInfo (s : PtySession) : SessionInfo :=
  {| si_id := ps_id s; si_pid := ps_ptyProcess s; si_model := ps_model s;
     si_cwd := ps_cwd s; si_startTime := ps_startTime s; si_active := true |}.

Definition pty_list_sessions (st : State) : list SessionInfo :=
  (fun kv => sessionInfo (snd kv)) <$> map_to_list (sessions st).

(** The [process.on('exit')] hook: every session is killed, a throwing
    [kill] being ignored, and the registry is cleared. *)
Definition on_process_exit (st : State) : State :=
  set_sessions ∅
    (foldl (fun st kv => emit (EPtyCall (PtyKill (ps_ptyProcess (snd kv)))) st)
       st (map_to_list (sessions st))).

(** What the main process can be asked to do, one event-loop turn each:
    the four IPC messages, the two callbacks of a pty process, and the
    [exit] hook of the host process. The file system is the one in place
    when a spawn request arrives. *)
Inductive Op :=
| OpSpawn (fs : FS) (sender : nat) (options : SpawnOptions)
| OpWrite (id data : string)
| OpResize (id : string) (cols rows : Z)
| OpKill (id : string)
| OpData (session : PtySession) (data : string)
| OpExit (session : PtySession) (exitCode signal : Z)
| OpProcessExit.

Definition apply_op (st : State) (op : Op) : State :=
  match op with
  | OpSpawn fs sender options => snd (pty_spawn_handler fs sender options st)
  | OpWrite id data => snd (pty_write id data st)
  | OpResize id cols rows => snd (pty_resize id cols rows st)
  | OpKill id => snd (pty_kill id st)
  | OpData session data => on_data session data st
  | OpExit session exitCode signal => on_exit session exitCode signal st
  | OpProcessExit => on_process_exit st
  end.

Definition run_ops (st : State) (ops : list Op) : State := foldl apply_op st ops.

(** Every session is stored under its own id, and the counter part of
    that id is not above the counter. *)
Definition wellKeyed (st : State) : Prop :=
  forall id s,
    sessions st !! id = Some s ->
    ps_id s = id /\ exists n t, id = sessionId n t /\ (n <= counter st)%N.

End Handlers.
End WithNode.
End PtyBridge.

(** ** CLI bridge: one-shot executions *)

Module CliBridge.
Import JS Escape.

Record ClaudeSession := {
  cs_id : string;
  cs_process : option Z;
  cs_cwd : string;
  cs_model : string;
  cs_startTime : Z;
  cs_active : bool
}.

(** The module-level [sessions] and [sessionCounter]. *)
Record State := {
  sessions : gmap string ClaudeSession;
  sessionCounter : N;
  clock : nat
}.

Record StartOptions := {
  ss_cwd : option string;
  ss_model : option string;
  ss_resume : option bool;
  ss_args : option (list string)
}.

Record ExecOptions := {
  eo_cwd : option string;
  eo_timeout : option Z
}.

(** The arguments of a [child_process.spawn] call. *)
Record SpawnCall := {
  sc_command : string;
  sc_args : list string;
  sc_cwd : string;
  sc_env : gmap string string
}.

(** What [spawnClaude] resolves with. *)
Record ExecResult := {
  code : option Z;
  stdout : string;
  stderr : string
}.

(** What the event loop delivers to a running execution. *)
Inductive ProcEvent :=
| StdoutData (d : string)
| StderrData (d : string)
| Close (exitCode : option Z)
| ProcError (message : string)
| TimerFires.

(** A running execution: the local variables of the promise body, the
    pending timer, the signals sent, and the value the promise is
    settled with. *)
Record Exec := {
  x_call : SpawnCall;
  x_timeout : Z;
  x_stdout : string;
  x_stderr : string;
  x_timer : bool;
  x_signals : list string;
  x_resolved : option ExecResult
}.

(** [s.endsWith(suffix)] *)
Definition endsWith (s suffix : string) : bool :=
  String.prefix (String.rev suffix) (String.rev s).

(** The reply of [cli:check]. *)
Record CheckReply := {
  available : bool;
  version : option string;
  path : option string
}.

(** The reply of [cli:enhance-prompt]: [{ success: true, enhanced }] or
    [{ success: false, error }]. *)
Inductive EnhanceReply :=
| Enhanced (text : string)
| EnhanceFailed (error : string).

(** [s.indexOf(c)] and the two slices around it: the text before the
    first [c] and the text after it. *)
Fixpoint splitAtFirst (c : ascii) (s : string) : option (string * string) :=
  match s with
  | EmptyString => None
  | String d s' =>
      if Ascii.eqb d c then Some (EmptyString, s')
      else
        match splitAtFirst c s' with
        | Some (before, after) => Some (String d before, after)
        | None => None
        end
  end.

(** [value.slice(1, -1)] *)
Definition sliceEnds (value : string) : string :=
  String.substring 1 (String.length value - 2) value.

(** A value wrapped in a pair of double quotes or of single quotes loses
    them. *)
Definition stripQuotes (value : string) : string :=
  if (startsWith value dquote && endsWith value dquote)
     || (startsWith value "'" && endsWith value "'")
  then sliceEnds value else value.

(** The digits of [r / 1000] after the point, for [0 < r < 1000]. *)
Definition millisDigits (r : Z) : string :=
  if r mod 100 =? 0 then pretty (r / 100)
  else if r mod 10 =? 0 then pretty (r / 100) +:+ pretty (r / 10 mod 10)
  else pretty (r / 100) +:+ pretty (r / 10 mod 10) +:+ pretty (r mod 10).

(** The text of the number [ms / 1000], for an integer [ms] in the range
    where the quotient prints in positional notation. *)
Definition showSeconds (ms : Z) : string :=
  let a := Z.abs ms in
  (if ms <? 0 then "-" else EmptyString)
  +:+ pretty (a / 1000)
  +:+ (if a mod 1000 =? 0 then EmptyString else "." +:+ millisDigits (a mod 1000)).

Definition timeoutMessage (timeout : Z) : string :=
  "Timeout after " +:+ showSeconds timeout +:+ "s".

(** [n || d] on numbers: 0 is falsy. *)
Definition num_or (o : option Z) (d : Z) : Z :=
  match o with
  | Some n => if n =? 0 then d else n
  | None => d
  end.

(** [resolve(r)]: a promise is settled once, later calls do nothing. *)
Definition resolve (r : ExecResult) (x : Exec) : Exec :=
  match x_resolved x with
  | Some _ => x
  | None =>
      {| x_call := x_call x; x_timeout := x_timeout x;
         x_stdout := x_stdout x; x_stderr := x_stderr x;
         x_timer := x_timer x; x_signals := x_signals x;
         x_resolved := Some r |}
  end.

Definition clearTimeout (x : Exec) : Exec :=
  {| x_call := x_call x; x_timeout := x_timeout x;
     x_stdout := x_stdout x; x_stderr := x_stderr x;
     x_timer := false; x_signals := x_signals x;
     x_resolved := x_resolved x |}.

Definition kill (signal : string) (x : Exec) : Exec :=
  {| x_call := x_call x; x_timeout := x_timeout x;
     x_stdout := x_stdout x; x_stderr := x_stderr x;
     x_timer := x_timer x; x_signals := x_signals x ++ [signal];
     x_resolved := x_resolved x |}.

(** The callbacks installed by [spawnClaude]. A cleared or fired timer
    does not fire. *)
Definition step (x : Exec) (ev : ProcEvent) : Exec :=
  match ev with
  | TimerFires =>
      if x_timer x then
        let x := clearTimeout x in
        let x := kill "SIGTERM" x in
        resolve {| code := Some (-1);
                   stdout := x_stdout x;
                   stderr := or_else (Some (x_stderr x))
                               (timeoutMessage (x_timeout x)) |} x
      else x
  | StdoutData d =>
      {| x_call := x_call x; x_timeout := x_timeout x;
         x_stdout := x_stdout x +:+ d; x_stderr := x_stderr x;
         x_timer := x_timer x; x_signals := x_signals x;
         x_resolved := x_resolved x |}
  | StderrData d =>
      {| x_call := x_call x; x_timeout := x_timeout x;
         x_stdout := x_stdout x; x_stderr := x_stderr x +:+ d;
         x_timer := x_timer x; x_signals := x_signals x;
         x_resolved := x_resolved x |}
  | Close exitCode =>
      let x := clearTimeout x in
      resolve {| code := exitCode; stdout := x_stdout x;
                 stderr := x_stderr x |} x
  | ProcError message =>
      let x := clearTimeout x in
      resolve {| code := Some (-1); stdout := EmptyString;
                 stderr := message |} x
  end.

Definition run (x : Exec) (evs : list ProcEvent) : Exec := fold_left step evs x.

(** An output chunk, on either stream. *)
Definition isData (ev : ProcEvent) : Prop :=
  match ev with
  | StdoutData _ | StderrData _ => True
  | _ => False
  end.

(** What a run of events wrote on each stream. *)
Fixpoint stdoutOf (evs : list ProcEvent) : string :=
  match evs with
  | [] => EmptyString
  | StdoutData d :: evs' => d +:+ stdoutOf evs'
  | _ :: evs' => stdoutOf evs'
  end.

Fixpoint stderrOf (evs : list ProcEvent) : string :=
  match evs with
  | [] => EmptyString
  | StderrData d :: evs' => d +:+ stderrOf evs'
  | _ :: evs' => stderrOf evs'
  end.

Section WithNode.
Context {FS : Type} (node : Node FS).

Definition env_var (name : string) : option string :=
  process_env node !! name.

Definition nvmDir : string :=
  path_join node [homedir node; ".nvm"; "versions"; "node"].

(** [versions.sort().reverse()[0]] of the nvm directory, when it can be
    listed and is not empty. *)
Definition latestNvm (fs : FS) : option string :=
  if existsSync node fs nvmDir then
    match readdirSync node fs nvmDir with
    | inr versions => sortReverseHead versions
    | inl _ => None
    end
  else None.

Definition fixedDirs : list string :=
  let home := homedir node in
  [ path_join node [home; ".npm-global"; "bin"];
    path_join node [home; ".local"; "bin"];
    path_join node [home; ".bun"; "bin"];
    "/usr/local/bin";
    "/opt/homebrew/bin";
    path_join node [home; ".cargo"; "bin"] ].

Definition versionDir (fs : FS) : list string :=
  match latestNvm fs with
  | Some latest => [path_join node [nvmDir; latest; "bin"]]
  | None => []
  end.

Definition extraPaths (fs : FS) : list string := fixedDirs ++ versionDir fs.

(** [process.env.PATH || '/usr/bin:/bin'] *)
Definition systemPath : string := or_else (env_var "PATH") "/usr/bin:/bin".

Definition buildUserPath (fs : FS) : string :=
  join ":" (extraPaths fs ++ [systemPath]).

Definition getSpawnEnv (fs : FS) : gmap string string :=
  <["PATH" := buildUserPath fs]> (process_env node).

Definition candidates : list string :=
  let home := homedir node in
  [ path_join node [home; ".npm-global"; "bin"; "claude"];
    "/usr/local/bin/claude";
    path_join node [home; ".local"; "bin"; "claude"];
    path_join node [home; ".bun"; "bin"; "claude"];
    "/opt/homebrew/bin/claude" ].

Definition getClaudePath (fs : FS) : string :=
  match List.find (existsSync node fs) candidates with
  | Some c => c
  | None =>
      match execSync node "which claude" (getSpawnEnv fs) with
      | inr out => trim out
      | inl _ => "claude"
      end
  end.


Definition findNodePath (fs : FS) : option string :=
  let home := homedir node in
  let viaNvm :=
    match latestNvm fs with
    | Some latest =>
        let nodePath := path_join node [nvmDir; latest; "bin"; "node"] in
        if existsSync node fs nodePath then Some nodePath else None
    | None => None
    end in
  match viaNvm with
  | Some p => Some p
  | None =>
      match List.find (existsSync node fs)
              [ "/usr/local/bin/node"; "/opt/homebrew/bin/node";
                path_join node [home; ".local"; "bin"; "node"];
                path_join node [home; ".bun"; "bin"; "node"] ] with
      | Some c => Some c
      | None =>
          match execSync node "which node" (getSpawnEnv fs) with
          | inr out => Some (trim out)
          | inl _ => None
          end
      end
  end.

(** *** [spawnClaude] and the handlers of [registerCliBridgeHandlers]

    [claudePath], [nodePath] and [claudeScript] are computed once, when
    the handlers are registered. *)

Section Handlers.
Variable claudePath : string.
Variable nodePath : option string.
Variable claudeScript : option string.

(** The [spawn] call of [spawnClaude]: the interpreter on the script, or
    the login shell on the escaped command line. *)
Definition spawnClaudeCall (fs : FS) (args : list string) (options : ExecOptions)
  : SpawnCall :=
  let cwd := or_else (eo_cwd options) (homedir node) in
  let env := getSpawnEnv fs in
  match truthy nodePath, truthy claudeScript with
  | Some nodeBin, Some script =>
      {| sc_command := nodeBin; sc_args := script :: args;
         sc_cwd := cwd; sc_env := env |}
  | _, _ =>
      let shell := or_else (env_var "SHELL") "/bin/zsh" in
      let cmdParts := map cliEscape (claudePath :: args) in
      {| sc_command := shell; sc_args := ["-l"; "-c"; join " " cmdParts];
         sc_cwd := cwd; sc_env := env |}
  end.

(** The execution as [spawnClaude] leaves it when the promise body
    returns: process spawned, timer armed, nothing collected. *)
Definition spawnClaude (fs : FS) (args : list string) (options : ExecOptions)
  : Exec :=
  {| x_call := spawnClaudeCall fs args options;
     x_timeout := num_or (eo_timeout options) 60000;
     x_stdout := EmptyString; x_stderr := EmptyString;
     x_timer := true; x_signals := []; x_resolved := None |}.

Definition generateSessionId (st : State) : string * State :=
  let n := (sessionCounter st + 1)%N in
  ("session-" +:+ pretty n +:+ "-" +:+ pretty (date_now node (clock st)),
   {| sessions := sessions st; sessionCounter := n; clock := S (clock st) |}).

(** [cli:start-session]; the result is [{ sessionId, cwd }]. *)
Definition cli_start_session (options : StartOptions) (st : State)
  : (string * string) * State :=
  let '(sessionId, st) := generateSessionId st in
  let cwd := or_else (ss_cwd options) (process_cwd node) in
  let session :=
    {| cs_id := sessionId; cs_process := None; cs_cwd := cwd;
       cs_model := or_else (ss_model options) "default";
       cs_startTime := date_now node (clock st); cs_active := true |} in
  ((sessionId, cwd),
   {| sessions := <[sessionId := session]> (sessions st);
      sessionCounter := sessionCounter st; clock := S (clock st) |}).

(** [cli:spawn-pty]: what to launch in a terminal for a session. *)
Definition cli_spawn_pty (fs : FS) (sessionId : string) (st : State)
  : Exn + SpawnCall :=
  match sessions st !! sessionId with
  | None => inl "Session not found"
  | Some session =>
      inr {| sc_command := claudePath; sc_args := [];
             sc_cwd := cs_cwd session; sc_env := getSpawnEnv fs |}
  end.

(** [cli:exec] *)
Definition cli_exec (fs : FS) (command : string) (cwd : option string)
  (timeout : option Z) (model : option string) : Exec :=
  let args :=
    (["-p"; command; "--output-format"; "text"]
     ++ match truthy model with
        | Some m => ["--model"; m]
        | None => []
        end)%list in
  spawnClaude fs args
    {| eo_cwd := cwd; eo_timeout := Some (num_or timeout 120000) |}.

(** [cli:slash-command] *)
Definition cli_slash_command (fs : FS) (command : string) (args cwd : option string)
  : Exec :=
  let fullCommand :=
    match truthy args with
    | Some a => "/" +:+ command +:+ " " +:+ a
    | None => "/" +:+ command
    end in
  spawnClaude fs ["-p"; fullCommand] {| eo_cwd := cwd; eo_timeout := Some 120000 |}.

Fixpoint hasChar (x : ascii) (s : string) : bool :=
  match s with
  | EmptyString => false
  | String c s' => Ascii.eqb c x || hasChar x s'
  end.

Definition hasDot (s : string) : bool := hasChar "." s.
Definition hasSlash (s : string) : bool := hasChar "/" s.

(** [filePath.split('.').pop()]: the text after the last dot. *)
Fixpoint afterLastDot (s : string) : string :=
  match s with
  | EmptyString => EmptyString
  | String c s' =>
      if Ascii.eqb c "." then afterLastDot s'
      else if hasDot s' then afterLastDot s'
      else s
  end.

(** [cli:run-script]: the [spawn] call, or none for an unsupported type. *)
Definition cli_run_script (fs : FS) (filePath : string) (cwd : option string)
  : option SpawnCall :=
  let ext := toLowerCase node (afterLastDot filePath) in
  let call command args :=
    Some {| sc_command := command; sc_args := args;
            sc_cwd := or_else cwd (homedir node); sc_env := getSpawnEnv fs |} in
  if String.eqb ext "py" then call "python3" [filePath]
  else if String.eqb ext "js" then call (or_else nodePath "node") [filePath]
  else if String.eqb ext "ts" then call "npx" ["tsx"; filePath]
  else if String.eqb ext "sh" || String.eqb ext "bash" then call "bash" [filePath]
  else None.

(** [cli:kill-session]: the process ids sent SIGTERM, and the reply,
    which is always [{ success: true }]. *)
Definition cli_kill_session (sessionId : string) (st : State)
  : (bool * list Z) * State :=
  let signalled :=
    match sessions st !! sessionId with
    | Some session =>
        match cs_process session with
        | Some pid => [pid]
        | None => []
        end
    | None => []
    end in
  ((true, signalled),
   {| sessions := delete sessionId (sessions st);
      sessionCounter := sessionCounter st; clock := clock st |}).

(** [cli:check]: the execution it starts, and the reply it builds from
    the settled result. *)
Definition cli_check_exec (fs : FS) : Exec :=
  spawnClaude fs ["--version"] {| eo_cwd := None; eo_timeout := Some 10000 |}.

Definition cli_check_reply (result : ExecResult) : CheckReply :=
  let version := trim (stdout result) in
  if negb (String.eqb version EmptyString) && bool_decide (code result = Some 0)
  then {| available := true; version := Some version; path := Some claudePath |}
  else {| available := false; version := None; path := None |}.

(** The CLI path of [cli:enhance-prompt], taken when there is no API key
    or the direct request failed: the execution, and the reply built
    from the settled result. *)
Definition enhanceInstruction : string :=
  "Rewrite this prompt to be clearer and more specific for an AI coding assistant. Output ONLY the enhanced prompt, nothing else:"
  +:+ newline +:+ newline.

Definition enhance_cli_exec (fs : FS) (prompt : string) : Exec :=
  spawnClaude fs
    ["-p"; enhanceInstruction +:+ prompt; "--output-format"; "text";
     "--model"; "haiku"]
    {| eo_cwd := None; eo_timeout := Some 45000 |}.

Definition enhance_cli_reply (result : ExecResult) : EnhanceReply :=
  if negb (String.eqb (trim (stdout result)) EmptyString)
  then Enhanced (trim (stdout result))
  else EnhanceFailed (or_else (Some (stderr result)) "No output from CLI").

(** The body of the loop of [getAnthropicApiKey] over the lines of the
    dotfile: the key a line defines, if it defines one. *)
Definition apiKeyOfLine (line : string) : option string :=
  let trimmed := trim line in
  if String.eqb trimmed EmptyString || startsWith trimmed "#" then None
  else
    match splitAtFirst "=" trimmed with
    | None => None
    | Some (before, after) =>
        let key := trim before in
        let value := stripQuotes (trim after) in
        if String.eqb key "ANTHROPIC_API_KEY"
           && negb (String.eqb value EmptyString)
        then Some value else None
    end.

Fixpoint firstApiKey (lines : list string) : option string :=
  match lines with
  | [] => None
  | line :: rest =>
      match apiKeyOfLine line with
      | Some value => Some value
      | None => firstApiKey rest
      end
  end.

Definition getAnthropicApiKey (fs : FS) : option string :=
  match truthy (env_var "ANTHROPIC_API_KEY") with
  | Some key => Some key
  | None =>
      let envPath := path_join node [homedir node; ".claude"; ".env"] in
      if existsSync node fs envPath then
        match readFileSync node fs envPath with
        | inr content => firstApiKey (split "010" content)
        | inl _ => None
        end
      else None
  end.

End Handlers.
End WithNode.
End CliBridge.

(** ** The application store of the renderer: the activity list *)

Module AppStore.

(** An activity as the caller gives it ([payload], the fields other than
    the two the store fills in), with its [id] and [timestamp]. *)
Record ActivityItem (A : Type) := {
  act_payload : A;
  act_id : string;
  act_timestamp : Z
}.
Arguments act_payload {A} _.
Arguments act_id {A} _.
Arguments act_timestamp {A} _.

(** The item [addActivity] builds; [idTime] and [stampTime] are the two
    readings of [Date.now()]. *)
Definition newActivity {A : Type} (activity : A) (idTime stampTime : Z)
  : ActivityItem A :=
  {| act_payload := activity; act_id := "act-" +:+ pretty idTime;
     act_timestamp := stampTime |}.

(** [addActivity]: the new item goes first, and [slice(0, 50)] keeps the
    first fifty. *)
Definition addActivity {A : Type} (activity : A) (idTime stampTime : Z)
  (activities : list (ActivityItem A)) : list (ActivityItem A) :=
  take 50 (newActivity activity idTime stampTime :: activities).

Definition clearActivities {A : Type} (activities : list (ActivityItem A))
  : list (ActivityItem A) := [].

(** A run of [addActivity] calls, each with its two clock readings. *)
Definition addAll {A : Type} (calls : list (A * Z * Z))
  (activities : list (ActivityItem A)) : list (ActivityItem A) :=
  foldl (fun acts call => addActivity call.1.1 call.1.2 call.2 acts)
    activities calls.

End AppStore.

(** ** Predicates on text used in the statements *)

Module Text.

(** A printable ASCII character other than the space. *)
Definition is_graph (c : ascii) : bool := JS.in_range "!" "~" c.

(** Every character of [s] is a printable ASCII character other than
    the space. *)
Definition graphic (s : string) : bool := JS.all_chars is_graph s.

(** Every character of [s] is ASCII white space. *)
Definition blank (s : string) : bool := JS.all_chars Ascii.is_space s.

(** [s] is empty or begins with a printable ASCII character other than
    the space. *)
Definition headOk (s : string) : bool :=
  match s with
  | String c _ => is_graph c
  | EmptyString => true
  end.

End Text.

(** ** A concrete platform

    A small file system and fixed answers for the library calls, to run
    the bridges on concrete requests. The host is a packaged application:
    started in [/], with a two-entry [PATH]. *)

Module Sample.

Inductive Entry :=
| File (content : string) (mtime : Z)
| Dir (children : list string).

Abbreviation SFS := (gmap string Entry).

Definition s_exists (fs : SFS) (p : string) : bool :=
  bool_decide (is_Some (fs !! p)).

Definition s_readFile (fs : SFS) (p : string) : Exn + string :=
  match fs !! p with
  | Some (File content _) => inr content
  | Some (Dir _) => inl "EISDIR: illegal operation on a directory"
  | None => inl "ENOENT: no such file or directory"
  end.

Definition s_writeFile (fs : SFS) (p content : string) : Exn + SFS :=
  match fs !! p with
  | Some (Dir _) => inl "EISDIR: illegal operation on a directory"
  | _ => inr (<[p := File content 0]> fs)
  end.

Definition s_mkdir (fs : SFS) (p : string) : Exn + SFS :=
  match fs !! p with
  | Some (File _ _) => inl "EEXIST: file already exists"
  | Some (Dir _) => inr fs
  | None => inr (<[p := Dir []]> fs)
  end.

Definition s_readdir (fs : SFS) (p : string) : Exn + list string :=
  match fs !! p with
  | Some (Dir children) => inr children
  | Some (File _ _) => inl "ENOTDIR: not a directory"
  | None => inl "ENOENT: no such file or directory"
  end.

Definition s_stat (fs : SFS) (p : string) : Exn + Stats :=
  match fs !! p with
  | Some (File content mtime) =>
      inr {| st_kind := KFile; st_size := Z.of_nat (String.length content);
             st_mtimeMs := mtime |}
  | Some (Dir _) => inr {| st_kind := KDir; st_size := 0; st_mtimeMs := 0 |}
  | None => inl "ENOENT: no such file or directory"
  end.

Definition s_unlink (fs : SFS) (p : string) : Exn + SFS :=
  match fs !! p with
  | Some (File _ _) => inr (delete p fs)
  | Some (Dir _) => inl "EPERM: operation not permitted"
  | None => inl "ENOENT: no such file or directory"
  end.

Definition s_realpath (fs : SFS) (p : string) : Exn + string :=
  if s_exists fs p then inr p else inl "ENOENT: no such file or directory".

(** Path functions, right on absolute paths in normal form. *)
Definition s_join (parts : list string) : string := String.concat "/" parts.

Definition s_extname (name : string) : string :=
  if CliBridge.hasDot name then "." +:+ CliBridge.afterLastDot name
  else EmptyString.

Definition s_relative (from to : string) : string :=
  if String.prefix (from +:+ "/") to
  then String.substring (S (String.length from)) (String.length to) to
  else to.

Fixpoint s_dirname_go (s : string) : string :=
  match s with
  | EmptyString => EmptyString
  | String c s' =>
      if CliBridge.hasSlash s' then String c (s_dirname_go s') else EmptyString
  end.

Definition lower (c : ascii) : ascii :=
  if JS.in_range "A" "Z" c then ascii_of_N (N_of_ascii c + 32) else c.

Fixpoint s_toLowerCase (s : string) : string :=
  match s with
  | EmptyString => EmptyString
  | String c s' => String (lower c) (s_toLowerCase s')
  end.

(** The platform, for a given operating system, environment and answers
    of [execSync]. *)
Definition node (win : bool) (env : gmap string string)
  (exec : string -> gmap string string -> Exn + string) : Node SFS :=
  {| isWin := win;
     homedir := "/Users/dev";
     tmpdir := "/var/folders/xy/T";
     process_cwd := "/";
     process_env := env;
     date_now := fun n => 1700000000000 + Z.of_nat n;
     path_resolve := fun p => p;
     path_join := s_join;
     path_dirname := s_dirname_go;
     path_extname := s_extname;
     path_relative := s_relative;
     toLowerCase := s_toLowerCase;
     existsSync := s_exists;
     readFileSync := s_readFile;
     writeFileSync := s_writeFile;
     mkdirSync := s_mkdir;
     readdirSync := s_readdir;
     statSync := s_stat;
     unlinkSync := s_unlink;
     realpathSync := s_realpath;
     execSync := exec;
     pty_spawn := fun _ _ _ _ => inr 4242;
     pty_throws := fun _ => None;
     isDestroyed := fun _ => false |}.

Definition packagedEnv : gmap string string :=
  {[ "PATH" := "/usr/bin:/bin"; "SHELL" := "/bin/zsh" ]}.

(** No tool answers: every [execSync] throws. *)
Definition noExec (cmd : string) (env : gmap string string) : Exn + string :=
  inl "Command failed".

Definition mac : Node SFS := node false packagedEnv noExec.




(** A project with two files of different age and a pruned directory. *)
Definition projectFs : SFS :=
  {[ "/Users/dev/app" := Dir ["old.txt"; "new.ts"; "node_modules"; "src"];
     "/Users/dev/app/old.txt" := File "old" 1000;
     "/Users/dev/app/new.ts" := File "export {}" 5000;
     "/Users/dev/app/node_modules" := Dir ["dep.js"];
     "/Users/dev/app/node_modules/dep.js" := File "dep" 9000;
     "/Users/dev/app/src" := Dir ["main.ts"];
     "/Users/dev/app/src/main.ts" := File "main()" 7000 ]}.

(** Two versions of the runtime under the version manager. *)
Definition nvmFs : SFS :=
  {[ "/Users/dev/.nvm/versions/node" := Dir ["v10.2.0"; "v9.11.1"];
     "/Users/dev/.nvm/versions/node/v10.2.0" := Dir ["bin"];
     "/Users/dev/.nvm/versions/node/v9.11.1" := Dir ["bin"] ]}.

(** A home directory whose [.claude/.env] defines a key after a comment
    and a blank line. *)
Definition dotenvFs : SFS :=
  {[ "/Users/dev/.claude/.env" :=
       File (JS.join JS.newline
               ["# keys"; " "; "ANTHROPIC_API_KEY=sk-ant-123"; "OTHER=1"])
            1000 ]}.

Definition noOptions : PtyBridge.SpawnOptions :=
  {| PtyBridge.so_cwd := None; PtyBridge.so_model := None;
     PtyBridge.so_args := None; PtyBridge.so_shell := None |}.

End Sample.

(** * Properties *)

(** ** Shell escaping *)

Section EscapeFacts.
Import JS Escape Sh.
Local Arguments String.append : simpl nomatch.

Lemma prepend_word s w ws : prepend s (w :: ws) = (s +:+ w) :: ws.
Proof. induction s as [|c s IH]; simpl; [done|]. by rewrite IH. Qed.

Lemma append_empty_r s : s +:+ EmptyString = s.
Proof. induction s as [|c s IH]; simpl; [done|]. by rewrite IH. Qed.

Lemma append_assoc s t u : (s +:+ t) +:+ u = s +:+ (t +:+ u).
Proof. induction s as [|c s IH]; simpl; [done|]. by rewrite IH. Qed.

(** A character of the safe class is read as itself outside quotes. *)
Lemma posixSafe_plain c :
  posixSafe c = true ->
  is_blank c = false /\ Ascii.eqb c "'" = false
  /\ Ascii.eqb c dquote_char = false /\ Ascii.eqb c "\" = false
  /\ plain c = true.
Proof.
  destruct c as [[] [] [] [] [] [] [] []]; vm_compute; intros H;
    first [discriminate H | repeat split].
Qed.

Lemma lex_safe_char c iw s :
  posixSafe c = true ->
  lex Unquoted iw (String c s) = push c <$> lex Unquoted true s.
Proof.
  intros (Hb & Hq & Hd & Hs & Hp)%posixSafe_plain.
  simpl. by rewrite Hb, Hq, Hd, Hs, Hp.
Qed.

(** An unquoted run of safe characters is one piece of a word. *)
Lemma lex_safe_run s iw rest :
  test_plus posixSafe s = true ->
  lex Unquoted iw (s +:+ rest) = prepend s <$> lex Unquoted true rest.
Proof.
  destruct s as [|c s]; [discriminate|]. simpl test_plus.
  revert c iw. induction s as [|d s IH]; intros c iw [Hc Hs]%andb_prop.
  - change (String c EmptyString +:+ rest) with (String c rest).
    by rewrite lex_safe_char.
  - change (String c (String d s) +:+ rest) with (String c (String d s +:+ rest)).
    rewrite lex_safe_char by done. rewrite (IH d true) by done.
    rewrite <- option_fmap_compose. done.
Qed.

(** Inside single quotes, the escaped text reads back as the argument. *)
Lemma lex_quoted_body a rest :
  lex InSingle true (replaceAll "'" "'\''" a +:+ String "'" rest)
  = prepend a <$> lex Unquoted true rest.
Proof.
  induction a as [|c a IH].
  - simpl. by rewrite option_fmap_id.
  - simpl replaceAll. destruct (Ascii.eqb c "'") eqn:Hc.
    + apply Ascii.eqb_eq in Hc as ->. simpl.
      rewrite IH, <- option_fmap_compose. done.
    + simpl. rewrite Hc, IH, <- option_fmap_compose. done.
Qed.

Lemma lex_posixQuote a iw rest :
  lex Unquoted iw (posixQuote a +:+ rest) = prepend a <$> lex Unquoted true rest.
Proof.
  unfold posixQuote. rewrite append_assoc.
  change (lex Unquoted iw ("'" +:+ (replaceAll "'" "'\''" a +:+ "'") +:+ rest))
    with (lex InSingle true ((replaceAll "'" "'\''" a +:+ "'") +:+ rest)).
  rewrite append_assoc. apply lex_quoted_body.
Qed.

(** The escaped argument, followed by anything, is read as the argument
    followed by what the rest continues the word with. *)
Lemma lex_shellEscape a iw rest :
  lex Unquoted iw (shellEscape false a +:+ rest)
  = prepend a <$> lex Unquoted true rest.
Proof.
  unfold shellEscape. destruct (test_plus posixSafe a) eqn:Hsafe.
  - by apply lex_safe_run.
  - apply lex_posixQuote.
Qed.

Lemma cliEscape_shellEscape a : cliEscape a = shellEscape false a.
Proof. reflexivity. Qed.

Lemma fields_shellEscape a : fields (shellEscape false a) = Some [a].
Proof.
  unfold fields.
  rewrite <- (append_empty_r (shellEscape false a)), lex_shellEscape.
  simpl. by rewrite prepend_word, append_empty_r.
Qed.

Lemma word_shellEscape a : word (shellEscape false a) = Some a.
Proof. unfold word. by rewrite fields_shellEscape. Qed.

Lemma lex_space_ends_word s :
  lex Unquoted true (String " " s)
  = (lex Unquoted false s ≫= fun ws => Some (EmptyString :: ws)).
Proof. reflexivity. Qed.

(** The whole command line that [pty:spawn] and the shell fallback of
    [spawnClaude] hand to the login shell splits back into the argument
    list it was built from. *)
Lemma command_line_round_trip (parts : list string) :
  fields (join " " (map (shellEscape false) parts)) = Some parts.
Proof.
  induction parts as [|a parts IH]; [done|].
  destruct parts as [|b parts].
  - apply fields_shellEscape.
  - change (join " " (map (shellEscape false) (a :: b :: parts)))
      with (shellEscape false a
            +:+ " " +:+ join " " (map (shellEscape false) (b :: parts))).
    unfold fields in *. rewrite lex_shellEscape.
    change (" " +:+ ?s) with (String " " s).
    rewrite lex_space_ends_word, IH. simpl. by rewrite prepend_word, append_empty_r.
Qed.

End EscapeFacts.

Example shellEscape_plain :
  Escape.shellEscape false "--model" = "--model".
Proof. reflexivity. Qed.

Example shellEscape_quote_space :
  Escape.shellEscape false "it's here" = "'it'\''s here'"
  /\ Sh.word "'it'\''s here'" = Some "it's here".
Proof. split; reflexivity. Qed.

Example shellEscape_empty :
  Escape.shellEscape false EmptyString = "''" /\ Sh.word "''" = Some EmptyString.
Proof. split; reflexivity. Qed.

Example sh_fields_line :
  Sh.fields "/usr/local/bin/claude --model opus 'a b' ''"
  = Some ["/usr/local/bin/claude"; "--model"; "opus"; "a b"; EmptyString].
Proof. reflexivity. Qed.

(** C3. Shell-escaping round trip: for every argument string, the output
    of [shellEscape] on the non-Windows branch, and of the escaping
    written inline in the shell fallback of [spawnClaude], read under the
    quoting rules of the POSIX shell, is one word whose value is the
    argument itself. *)
Theorem shell_escape_round_trip (arg : string) :
  Sh.word (Escape.shellEscape false arg) = Some arg
  /\ Sh.word (Escape.cliEscape arg) = Some arg.
Proof.
  split; [|rewrite cliEscape_shellEscape]; apply word_shellEscape.
Qed.

(** ** PTY session manager *)

Section PtyFacts.
Import JS Escape PtyBridge.
Context {FS : Type} (node : Node FS).

Lemma includes_elem_of (xs : list string) (x : string) :
  includes xs x = true <-> x ∈ xs.
Proof.
  unfold includes. rewrite existsb_exists, list_elem_of_In. split.
  - intros (y & Hy & ->%String.eqb_eq). done.
  - intros Hx. exists x. by rewrite String.eqb_refl.
Qed.

Lemma truthy_nonempty (s : string) : s <> EmptyString -> truthy (Some s) = Some s.
Proof.
  intros Hs. unfold truthy.
  destruct (String.eqb s EmptyString) eqn:E; [|done].
  by apply String.eqb_eq in E.
Qed.

(** The environment builder touches neither the registry nor the
    counter; the only process it may run is the login-shell probe, once. *)
Lemma getLoginShellPath_frame (st : State) :
  sessions (snd (getLoginShellPath node st)) = sessions st
  /\ counter (snd (getLoginShellPath node st)) = counter st
  /\ (effects (snd (getLoginShellPath node st)) = effects st
      \/ effects (snd (getLoginShellPath node st))
         = effects st ++ [EExecSync (loginShellProbe node) (process_env node)]).
Proof.
  unfold getLoginShellPath.
  destruct (cachedLoginPath st); [by auto|].
  destruct (isWin node); [by auto|].
  destruct (execSync node _ _) as [e|out]; [by auto|].
  destruct (String.eqb _ _); by auto.
Qed.

Lemma buildUserPath_frame (fs : FS) (st : State) :
  sessions (snd (buildUserPath node fs st)) = sessions st
  /\ counter (snd (buildUserPath node fs st)) = counter st
  /\ (effects (snd (buildUserPath node fs st)) = effects st
      \/ effects (snd (buildUserPath node fs st))
         = effects st ++ [EExecSync (loginShellProbe node) (process_env node)]).
Proof.
  unfold buildUserPath.
  pose proof (getLoginShellPath_frame st) as H.
  destruct (getLoginShellPath node st) as [p st']. exact H.
Qed.

Lemma claudeArgs_rejects claudePath options model :
  so_model options = Some model -> model <> EmptyString ->
  model ∉ ALLOWED_MODELS ->
  claudeArgs claudePath options = inl (invalidModel model).
Proof.
  intros Hm Hne Hnot. unfold claudeArgs. rewrite Hm, truthy_nonempty by done.
  destruct (includes ALLOWED_MODELS model) eqn:E; [|done].
  by apply includes_elem_of in E.
Qed.

Lemma shellArgs_rejects claudePath options model :
  so_model options = Some model -> model <> EmptyString ->
  model ∉ ALLOWED_MODELS -> rawShell options = false ->
  shellArgs node claudePath options = inl (invalidModel model).
Proof.
  intros Hm Hne Hnot Hraw. unfold shellArgs, claudeCmd.
  rewrite Hraw, (claudeArgs_rejects claudePath options model) by done.
  by destruct (isWin node).
Qed.


Lemma on_exit_removes session exitCode signal (st : State) :
  sessions (on_exit node session exitCode signal st) !! ps_id session = None.
Proof.
  unfold on_exit. destruct (negb _); simpl; apply lookup_delete_eq.
Qed.

End PtyFacts.

(** C9. For a session id that is not in the registry, [pty:write],
    [pty:resize] and [pty:kill] are no-ops: no exception escapes the
    listener, and the state (registry, sessions, effects on the outside
    world) is left as it was. An id whose session has exited is such an
    id: see [on_exit_removes]. *)
Theorem absent_session_noop {FS : Type} (node : Node FS) (id : string)
  (st : PtyBridge.State) :
  PtyBridge.sessions st !! id = None ->
  (forall data, PtyBridge.pty_write node id data st = (None, st))
  /\ (forall cols rows, PtyBridge.pty_resize node id cols rows st = (None, st))
  /\ PtyBridge.pty_kill node id st = (None, st).
Proof.
  intros Habsent.
  unfold PtyBridge.pty_write, PtyBridge.pty_resize, PtyBridge.pty_kill.
  rewrite Habsent. done.
Qed.

Lemma absent_session_noop_witness :
  (forall data,
     PtyBridge.pty_write Sample.mac "pty-1-1700000000000" data PtyBridge.initial
     = (None, PtyBridge.initial))
  /\ (forall cols rows,
        PtyBridge.pty_resize Sample.mac "pty-1-1700000000000" cols rows
          PtyBridge.initial
        = (None, PtyBridge.initial))
  /\ PtyBridge.pty_kill Sample.mac "pty-1-1700000000000" PtyBridge.initial
     = (None, PtyBridge.initial).
Proof.
  apply (absent_session_noop Sample.mac "pty-1-1700000000000" PtyBridge.initial).
  reflexivity.
Defined.

(** After the exit callback of a session has run, the three operations
    on its id do nothing. *)
Lemma exited_session_noop {FS : Type} (node : Node FS) session exitCode signal
  (st : PtyBridge.State) data cols rows :
  let st' := PtyBridge.on_exit node session exitCode signal st in
  let id := PtyBridge.ps_id session in
  PtyBridge.pty_write node id data st' = (None, st')
  /\ PtyBridge.pty_resize node id cols rows st' = (None, st')
  /\ PtyBridge.pty_kill node id st' = (None, st').
Proof.
  intros st' id.
  unfold PtyBridge.pty_write, PtyBridge.pty_resize, PtyBridge.pty_kill.
  subst st' id. rewrite on_exit_removes. done.
Qed.

(** C1, as the code has it. For every non-empty model string outside
    the allowlist, on a request that is not for a raw shell, [pty:spawn]
    returns the error result with the descriptive message, leaves the
    registry as it was, and launches no pty process: the only effect on
    the outside world that the call can have is the one-time login-shell
    path probe of the environment builder. *)
Theorem spawn_rejects_disallowed_model {FS : Type} (node : Node FS)
  (claudePath : string) (fs : FS) (sender : nat)
  (options : PtyBridge.SpawnOptions) (st : PtyBridge.State) (model : string) :
  PtyBridge.so_model options = Some model ->
  model <> EmptyString ->
  model ∉ PtyBridge.ALLOWED_MODELS ->
  PtyBridge.rawShell options = false ->
  let r := PtyBridge.pty_spawn_handler node claudePath fs sender options st in
  fst r = PtyBridge.SpawnError (PtyBridge.invalidModel model)
  /\ PtyBridge.sessions (snd r) = PtyBridge.sessions st
  /\ exists new,
       PtyBridge.effects (snd r) = PtyBridge.effects st ++ new
       /\ existsb PtyBridge.isPtySpawn new = false
       /\ (new = []
           \/ new = [PtyBridge.EExecSync (PtyBridge.loginShellProbe node)
                       (process_env node)]).
Proof.
  intros Hm Hne Hnot Hraw r. subst r.
  unfold PtyBridge.pty_spawn_handler. simpl.
  set (st1 := {| PtyBridge.sessions := _ |}).
  pose proof (buildUserPath_frame node fs st1) as (Hs & _ & He).
  destruct (PtyBridge.buildUserPath node fs st1) as [path st2].
  rewrite (shellArgs_rejects node claudePath options model) by done.
  simpl in *. split; [done|]. split; [done|].
  destruct He as [He|He]; rewrite He.
  - exists []. by rewrite app_nil_r; auto.
  - eexists. split; [done|]. split; [done|]. by right.
Qed.

Lemma spawn_rejects_disallowed_model_witness :
  let options :=
    {| PtyBridge.so_cwd := None; PtyBridge.so_model := Some "gpt-4";
       PtyBridge.so_args := Some ["--verbose"]; PtyBridge.so_shell := None |} in
  let r := PtyBridge.pty_spawn_handler Sample.mac "claude" Sample.projectFs 7%nat
             options PtyBridge.initial in
  fst r = PtyBridge.SpawnError (PtyBridge.invalidModel "gpt-4")
  /\ PtyBridge.sessions (snd r) = PtyBridge.sessions PtyBridge.initial
  /\ exists new,
       PtyBridge.effects (snd r) = PtyBridge.effects PtyBridge.initial ++ new
       /\ existsb PtyBridge.isPtySpawn new = false
       /\ (new = []
           \/ new = [PtyBridge.EExecSync (PtyBridge.loginShellProbe Sample.mac)
                       (process_env Sample.mac)]).
Proof.
  apply (spawn_rejects_disallowed_model Sample.mac "claude" Sample.projectFs 7%nat
           _ PtyBridge.initial "gpt-4").
  - reflexivity.
  - discriminate.
  - intros H. apply includes_elem_of in H. vm_compute in H. discriminate H.
  - reflexivity.
Defined.

(** The claim C1 as stated fails on two kinds of request: a raw-shell
    request carrying a model outside the allowlist, and the empty model
    string. Both spawn a pty process and register a session; the first
    records the disallowed model in the registry. *)
Lemma spawn_disallowed_model_counterexample :
  let raw :=
    {| PtyBridge.so_cwd := None; PtyBridge.so_model := Some "gpt-4";
       PtyBridge.so_args := None; PtyBridge.so_shell := Some true |} in
  let empty :=
    {| PtyBridge.so_cwd := None; PtyBridge.so_model := Some EmptyString;
       PtyBridge.so_args := None; PtyBridge.so_shell := None |} in
  let spawn options :=
    PtyBridge.pty_spawn_handler Sample.mac "claude" Sample.projectFs 7%nat
      options PtyBridge.initial in
  ("gpt-4" ∉ PtyBridge.ALLOWED_MODELS)
  /\ (EmptyString ∉ PtyBridge.ALLOWED_MODELS)
  /\ fst (spawn raw) = PtyBridge.Spawned "pty-1-1700000000000" 4242
  /\ PtyBridge.ps_model
       <$> (PtyBridge.sessions (snd (spawn raw)) !! "pty-1-1700000000000")
     = Some "gpt-4"
  /\ existsb PtyBridge.isPtySpawn (PtyBridge.effects (snd (spawn raw))) = true
  /\ fst (spawn empty) = PtyBridge.Spawned "pty-1-1700000000000" 4242
  /\ PtyBridge.ps_model
       <$> (PtyBridge.sessions (snd (spawn empty)) !! "pty-1-1700000000000")
     = Some "default"
  /\ existsb PtyBridge.isPtySpawn (PtyBridge.effects (snd (spawn empty))) = true.
Proof.
  cbv zeta.
  split. { intros H. apply includes_elem_of in H. vm_compute in H. discriminate H. }
  split. { intros H. apply includes_elem_of in H. vm_compute in H. discriminate H. }
  repeat split; vm_compute; reflexivity.
Qed.




(** ** File bridge *)

(** C2. Each of the five file handlers resolves its path argument and
    checks the result with [allowedPath] (the home directory, the system
    temp directory, and off Windows also [/tmp], or anything below one of
    them) before anything else. When the check fails the handler performs
    no [fs] call at all, leaves the file system as it was, and returns its
    failure value, carrying the message of the guard where the result has
    room for one; nothing is thrown. *)
Theorem path_guard_fails_closed {FS : Type} (node : Node FS)
  (path content : string) (w : FileBridge.World FS) :
  FileBridge.allowedPath node (path_resolve node path) = false ->
  let denied := FileBridge.accessDenied node (path_resolve node path) in
  FileBridge.fs_read node path w
  = ({| FileBridge.rr_exists := false; FileBridge.rr_content := None;
        FileBridge.rr_error := Some denied |}, w)
  /\ FileBridge.fs_write node path content w
     = ({| FileBridge.or_success := false;
           FileBridge.or_error := Some denied |}, w)
  /\ FileBridge.fs_exists node path w = (false, w)
  /\ FileBridge.fs_list_dir node path w
     = ({| FileBridge.lr_exists := false; FileBridge.lr_entries := [];
           FileBridge.lr_error := Some denied |}, w)
  /\ FileBridge.fs_delete node path w
     = ({| FileBridge.or_success := false;
           FileBridge.or_error := Some denied |}, w).
Proof.
  intros Hdenied denied.
  assert (Hv : FileBridge.validatePath node path = inl denied)
    by (unfold FileBridge.validatePath; by rewrite Hdenied).
  unfold FileBridge.fs_read, FileBridge.fs_write, FileBridge.fs_exists,
    FileBridge.fs_list_dir, FileBridge.fs_delete, FileBridge.try_catch,
    mbind, FileBridge.io_bind, FileBridge.lift.
  rewrite Hv. done.
Qed.

Lemma path_guard_fails_closed_witness :
  let w := {| FileBridge.w_fs := Sample.projectFs; FileBridge.w_log := [] |} in
  FileBridge.fs_exists Sample.mac "/etc/passwd" w = (false, w)
  /\ FileBridge.or_success
       (fst (FileBridge.fs_delete Sample.mac "/etc/passwd" w)) = false
  /\ FileBridge.w_log (snd (FileBridge.fs_delete Sample.mac "/etc/passwd" w)) = [].
Proof.
  intros w.
  destruct (path_guard_fails_closed Sample.mac "/etc/passwd" EmptyString w eq_refl)
    as (_ & _ & Hexists & _ & Hdelete).
  split; [exact Hexists|]. rewrite Hdelete. split; reflexivity.
Defined.

(** The guard on an allowed path: the handler goes on to the file
    system, on the resolved path. *)
Example fs_read_allowed :
  let w := {| FileBridge.w_fs := Sample.projectFs; FileBridge.w_log := [] |} in
  FileBridge.fs_read Sample.mac "/Users/dev/app/old.txt" w
  = ({| FileBridge.rr_exists := true; FileBridge.rr_content := Some "old";
        FileBridge.rr_error := None |},
     {| FileBridge.w_fs := Sample.projectFs;
        FileBridge.w_log := [ FileBridge.SysExists "/Users/dev/app/old.txt";
                              FileBridge.SysReadFile "/Users/dev/app/old.txt" ] |}).
Proof. reflexivity. Qed.

(** *** Activity scan *)

Section ScanFacts.
Import FileBridge.
Context {FS : Type} (node : Node FS) (fs : FS) (opts : ScanOptions).

Lemma fold_left_invariant {S A : Type} (P : S -> Prop) (f : S -> A -> S)
  (xs : list A) (s : S) :
  (forall s x, P s -> P (f s x)) -> P s -> P (fold_left f xs s).
Proof.
  intros Hstep. revert s. induction xs as [|x xs IH]; simpl; auto.
Qed.

Lemma scanDir_recent levels dir location st :
  recent opts st -> recent opts (scanDir node fs opts levels dir location st).
Proof.
  revert dir st. induction levels as [|levels IH]; intros dir st Hst; simpl.
  - done.
  - destruct (negb _); [done|].
    destruct (readdirSync node fs dir) as [e|entries]; [done|].
    apply fold_left_invariant; [|done].
    clear st Hst. intros st name Hst.
    destruct (isNoise name); [done|].
    destruct (decide _); [done|].
    destruct (statSync node fs _) as [e|stat]; [done|].
    destruct (isDirectory stat).
    + apply IH. done.
    + destruct (isFile stat && _) eqn:Hfile; [|done].
      apply andb_prop in Hfile as [_ Hage%Z.leb_le].
      unfold recent in *. simpl.
      apply Forall_app. split; [done|].
      by constructor.
Qed.

Lemma scanRoot_recent dir location st :
  recent opts st -> recent opts (scanRoot node fs opts dir location st).
Proof. apply scanDir_recent. Qed.

Lemma scanScratchpads_recent bases st :
  recent opts st -> recent opts (scanScratchpads node fs opts bases st).
Proof.
  revert st. induction bases as [|base bases IH]; intros st Hst; simpl.
  - done.
  - destruct (negb _); [by apply IH|].
    destruct (readdirSync node fs base) as [e|entries]; [done|].
    apply IH, fold_left_invariant; [|done].
    intros st' entry Hst'. destruct (JS.startsWith _ _); [|done].
    by apply scanRoot_recent.
Qed.

Global Instance newerFirst_trans : Transitive newerFirst.
Proof. unfold newerFirst. intros a b c ??. lia. Qed.

Global Instance newerFirst_total : Total newerFirst.
Proof. unfold newerFirst. intros a b. lia. Qed.

End ScanFacts.

(** C8. Every entry the activity scan returns has a modification time
    at or after [sinceMs], and the returned list is ordered by
    modification time, newest first: each entry is at least as new as
    every entry after it. *)
Theorem scan_activity_recent_sorted {FS : Type} (node : Node FS) (fs : FS)
  (opts : FileBridge.ScanOptions) :
  let found := FileBridge.fs_scan_activity node fs opts in
  Forall (fun f => FileBridge.sinceMs opts <= FileBridge.af_modified f) found
  /\ StronglySorted
       (fun a b => FileBridge.af_modified b <= FileBridge.af_modified a) found.
Proof.
  intros found. subst found. unfold FileBridge.fs_scan_activity. split.
  - rewrite merge_sort_Permutation.
    match goal with
    | |- Forall _ (FileBridge.results ?s) => change (FileBridge.recent opts s)
    end.
    repeat first
      [ apply scanRoot_recent | apply scanScratchpads_recent
      | match goal with
        | |- FileBridge.recent _ (if ?b then _ else _) => destruct b
        end ];
      by constructor.
  - apply (StronglySorted_merge_sort FileBridge.newerFirst).
Qed.

Example scan_activity_sample :
  map FileBridge.af_path
    (FileBridge.fs_scan_activity Sample.mac Sample.projectFs
       {| FileBridge.projectDir := "/Users/dev/app"; FileBridge.sinceMs := 2000;
          FileBridge.maxDepth := None |})
  = ["/Users/dev/app/src/main.ts"; "/Users/dev/app/new.ts"].
Proof. vm_compute. reflexivity. Qed.

(** ** One-shot executions *)

Section ExecFacts.
Import CliBridge.

Lemma run_app x evs1 evs2 : run x (evs1 ++ evs2) = run (run x evs1) evs2.
Proof. apply fold_left_app. Qed.

Lemma run_cons x ev evs : run x (ev :: evs) = run (step x ev) evs.
Proof. reflexivity. Qed.

(** Output chunks only accumulate. *)
Lemma run_data x evs :
  Forall isData evs ->
  run x evs
  = {| x_call := x_call x; x_timeout := x_timeout x;
       x_stdout := x_stdout x +:+ stdoutOf evs;
       x_stderr := x_stderr x +:+ stderrOf evs;
       x_timer := x_timer x; x_signals := x_signals x;
       x_resolved := x_resolved x |}.
Proof.
  intros Hdata. revert x.
  induction Hdata as [|ev evs Hev _ IH]; intros x.
  - simpl. rewrite !append_empty_r. by destruct x.
  - unfold run in *. simpl fold_left. rewrite IH.
    destruct ev; try done; simpl; by rewrite append_assoc.
Qed.

(** A settled promise keeps its value. *)
Lemma step_resolved x ev r :
  x_resolved x = Some r -> x_resolved (step x ev) = Some r.
Proof.
  intros Hr. destruct ev; simpl; try done.
  - unfold resolve. simpl. by rewrite Hr.
  - unfold resolve. simpl. by rewrite Hr.
  - destruct (x_timer x); [|done]. unfold resolve. simpl. by rewrite Hr.
Qed.

Lemma run_resolved x evs r :
  x_resolved x = Some r -> x_resolved (run x evs) = Some r.
Proof.
  revert x. induction evs as [|ev evs IH]; intros x Hr; [done|].
  apply IH, step_resolved, Hr.
Qed.

(** Once the timer is gone, no signal is sent any more. *)
Lemma step_signals x ev :
  x_timer x = false ->
  x_timer (step x ev) = false /\ x_signals (step x ev) = x_signals x.
Proof.
  intros Ht. destruct ev; simpl; try done.
  - unfold resolve. by destruct (x_resolved _).
  - unfold resolve. by destruct (x_resolved _).
  - by rewrite Ht.
Qed.

Lemma run_signals x evs :
  x_timer x = false -> x_signals (run x evs) = x_signals x.
Proof.
  revert x. induction evs as [|ev evs IH]; intros x Ht; [done|].
  destruct (step_signals x ev Ht) as [Ht' Hs].
  unfold run in *. simpl. by rewrite IH.
Qed.

End ExecFacts.

(** C4. When the timer of a one-shot execution fires before the process
    has closed or failed, the promise is settled with exit code -1, with
    all the standard output collected up to that moment, and with the
    collected standard error or, when that is empty, the synthesized
    timeout message; the process is sent SIGTERM, once. Whatever the
    process does afterwards changes neither. *)
Theorem timeout_result {FS : Type} (node : Node FS)
  (claudePath : string) (nodePath claudeScript : option string) (fs : FS)
  (args : list string) (options : CliBridge.ExecOptions)
  (before after : list CliBridge.ProcEvent) :
  Forall CliBridge.isData before ->
  let x :=
    CliBridge.run
      (CliBridge.spawnClaude node claudePath nodePath claudeScript fs args options)
      (before ++ CliBridge.TimerFires :: after) in
  let timeout := CliBridge.num_or (CliBridge.eo_timeout options) 60000 in
  CliBridge.x_resolved x
  = Some {| CliBridge.code := Some (-1);
            CliBridge.stdout := CliBridge.stdoutOf before;
            CliBridge.stderr :=
              if String.eqb (CliBridge.stderrOf before) EmptyString
              then CliBridge.timeoutMessage timeout
              else CliBridge.stderrOf before |}
  /\ CliBridge.x_signals x = ["SIGTERM"].
Proof.
  intros Hdata x timeout. subst x.
  rewrite run_app, run_cons, (run_data _ before Hdata). split.
  - apply run_resolved. simpl. unfold CliBridge.resolve. simpl.
    unfold JS.or_else, JS.truthy. fold timeout.
    change (EmptyString +:+ CliBridge.stderrOf before) with (CliBridge.stderrOf before).
    change (EmptyString +:+ CliBridge.stdoutOf before) with (CliBridge.stdoutOf before).
    by destruct (String.eqb (CliBridge.stderrOf before) EmptyString).
  - rewrite run_signals; [done|].
    simpl. unfold CliBridge.resolve. by simpl.
Qed.

Lemma timeout_result_witness :
  let x :=
    CliBridge.run
      (CliBridge.spawnClaude Sample.mac "claude" None None Sample.projectFs
         ["--version"]
         {| CliBridge.eo_cwd := None; CliBridge.eo_timeout := Some 10000 |})
      ([CliBridge.StdoutData "partial "; CliBridge.StdoutData "output"]
       ++ CliBridge.TimerFires :: [CliBridge.StdoutData "late"; CliBridge.Close None]) in
  CliBridge.x_resolved x
  = Some {| CliBridge.code := Some (-1);
            CliBridge.stdout := "partial output";
            CliBridge.stderr := "Timeout after 10s" |}
  /\ CliBridge.x_signals x = ["SIGTERM"].
Proof.
  apply (timeout_result Sample.mac "claude" None None Sample.projectFs
           ["--version"]
           {| CliBridge.eo_cwd := None; CliBridge.eo_timeout := Some 10000 |}
           [CliBridge.StdoutData "partial "; CliBridge.StdoutData "output"]
           [CliBridge.StdoutData "late"; CliBridge.Close None]).
  repeat constructor.
Defined.

(** ** Working directory of spawned processes *)

Section CwdFacts.
Context {FS : Type} (node : Node FS).

(** [spawnClaude] runs the process in the home directory when the caller
    gives no working directory. *)
Lemma spawnClaude_default_cwd claudePath nodePath claudeScript (fs : FS) args
  options :
  JS.truthy (CliBridge.eo_cwd options) = None ->
  CliBridge.sc_cwd
    (CliBridge.x_call
       (CliBridge.spawnClaude node claudePath nodePath claudeScript fs args options))
  = homedir node.
Proof.
  intros Hcwd. simpl. unfold CliBridge.spawnClaudeCall, JS.or_else.
  rewrite Hcwd. by destruct (JS.truthy nodePath), (JS.truthy claudeScript).
Qed.

(** So does [cli:run-script]. *)
Lemma run_script_default_cwd nodePath (fs : FS) filePath call :
  CliBridge.cli_run_script node nodePath fs filePath None = Some call ->
  CliBridge.sc_cwd call = homedir node.
Proof.
  unfold CliBridge.cli_run_script. intros H.
  repeat match type of H with
         | (if ?b then _ else _) = _ => destruct b
         end; by simplify_eq.
Qed.

(** And [pty:spawn]: a pty process launched by the handler runs in the
    given directory, or in the home directory when none is given. *)
Lemma pty_spawn_cwd claudePath (fs : FS) sender options (st : PtyBridge.State)
  shell args cwd env :
  let r := PtyBridge.pty_spawn_handler node claudePath fs sender options st in
  PtyBridge.EPtySpawn shell args cwd env ∈ PtyBridge.effects (snd r) ->
  PtyBridge.EPtySpawn shell args cwd env ∈ PtyBridge.effects st
  \/ cwd = JS.or_else (PtyBridge.so_cwd options) (homedir node).
Proof.
  intros r. subst r. unfold PtyBridge.pty_spawn_handler. simpl.
  set (st1 := {| PtyBridge.sessions := _ |}).
  pose proof (buildUserPath_frame node fs st1) as (_ & _ & He).
  destruct (PtyBridge.buildUserPath node fs st1) as [path st2].
  simpl in He.
  assert (Hold : PtyBridge.EPtySpawn shell args cwd env ∈ PtyBridge.effects st2 ->
                 PtyBridge.EPtySpawn shell args cwd env ∈ PtyBridge.effects st).
  { destruct He as [-> | ->]; [done|].
    rewrite elem_of_app, list_elem_of_singleton. intros [?|?]; [done|discriminate]. }
  destruct (PtyBridge.shellArgs node claudePath options) as [e|sargs]; simpl.
  { auto. }
  destruct (pty_spawn node _ sargs _ _) as [e|pid]; simpl;
    rewrite elem_of_app, list_elem_of_singleton;
    (intros [?|[= _ _ <- _]]; [by auto | by right]).
Qed.

(** [cli:start-session] records and returns the working directory of the
    host process instead. *)
Lemma start_session_cwd options (st : CliBridge.State) :
  JS.truthy (CliBridge.ss_cwd options) = None ->
  snd (fst (CliBridge.cli_start_session node options st)) = process_cwd node.
Proof.
  intros Hcwd. unfold CliBridge.cli_start_session. simpl.
  unfold JS.or_else. by rewrite Hcwd.
Qed.

End CwdFacts.

(** C5, where the code departs from it. [cli:start-session] called
    without a working directory, in a packaged application started in
    [/] by a user whose home is [/Users/dev]: the session is recorded
    with the working directory of the host process, and [cli:spawn-pty]
    hands that directory out as the one to launch the tool in. *)
Theorem start_session_uses_host_cwd :
  let options :=
    {| CliBridge.ss_cwd := None; CliBridge.ss_model := None;
       CliBridge.ss_resume := None; CliBridge.ss_args := None |} in
  let st0 :=
    {| CliBridge.sessions := ∅; CliBridge.sessionCounter := 0%N;
       CliBridge.clock := 0%nat |} in
  let r := CliBridge.cli_start_session Sample.mac options st0 in
  let sessionId := fst (fst r) in
  homedir Sample.mac = "/Users/dev"
  /\ process_cwd Sample.mac = "/"
  /\ snd (fst r) = "/"
  /\ CliBridge.cs_cwd <$> (CliBridge.sessions (snd r) !! sessionId) = Some "/"
  /\ match CliBridge.cli_spawn_pty Sample.mac "claude" Sample.projectFs
             sessionId (snd r) with
     | inr call => CliBridge.sc_cwd call = "/"
     | inl _ => False
     end.
Proof. vm_compute. repeat split. Qed.

(** ** Environment builder *)

Section PathFacts.
Import JS.
Local Arguments String.append : simpl nomatch.

Lemma split_nonempty c s : split c s <> [].
Proof.
  destruct s as [|d s]; simpl; [done|].
  destruct (Ascii.eqb d c); [done|]. by destruct (split c s).
Qed.

Lemma cons_char_app d (xs ys : list string) :
  xs <> [] -> cons_char d (xs ++ ys) = cons_char d xs ++ ys.
Proof. by destruct xs. Qed.

(** Splitting around a separator splits both sides. *)
Lemma split_app_sep c a b :
  split c (a +:+ String c b) = split c a ++ split c b.
Proof.
  induction a as [|d a IH]; simpl.
  - by rewrite Ascii.eqb_refl.
  - destruct (Ascii.eqb d c); rewrite IH; [done|].
    apply cons_char_app, split_nonempty.
Qed.

(** The entries of a joined list are the entries of its members. *)
Lemma split_join c (xs : list string) :
  xs <> [] ->
  split c (join (String c EmptyString) xs) = flat_map (split c) xs.
Proof.
  induction xs as [|x xs IH]; [done|]. intros _.
  destruct xs as [|y xs].
  - simpl. by rewrite app_nil_r.
  - change (join (String c EmptyString) (x :: y :: xs))
      with (x +:+ String c EmptyString +:+ join (String c EmptyString) (y :: xs)).
    change (String c EmptyString +:+ join (String c EmptyString) (y :: xs))
      with (String c (join (String c EmptyString) (y :: xs))).
    rewrite split_app_sep, IH by done. done.
Qed.

End PathFacts.



(** ** Binary resolver *)

Section ResolverFacts.
Context {A : Type} (f : A -> bool).



End ResolverFacts.




(** * Further properties of the bridges *)

(** ** Session ids and the registry *)

Section RegistryFacts.
Import JS PtyBridge.
Local Arguments String.append : simpl nomatch.
Context {FS : Type} (node : Node FS) (claudePath : string).

Lemma pretty_N_char_digit (k : N) : is_digit (pretty_N_char k) = true.
Proof. unfold pretty_N_char. by repeat case_match. Qed.

Lemma pretty_N_go_digits (x : N) (s : string) :
  all_chars is_digit s = true -> all_chars is_digit (pretty_N_go x s) = true.
Proof.
  revert s. induction (N.lt_wf_0 x) as [x _ IH]; intros s Hs.
  assert (x = 0 \/ 0 < x)%N as [->|Hpos] by lia.
  - by rewrite pretty_N_go_0.
  - rewrite pretty_N_go_step by done. apply IH.
    + by apply N.div_lt.
    + simpl. by rewrite pretty_N_char_digit.
Qed.

(** A counter prints as digits only. *)
Lemma pretty_N_digits (n : N) : all_chars is_digit (pretty n) = true.
Proof.
  unfold pretty, pretty_N. case_decide; [done|]. by apply pretty_N_go_digits.
Qed.

(** Two texts made of digits, each followed by a dash, that agree as
    wholes agree on the digits. *)
Lemma digits_dash_inj (a a' b b' : string) :
  all_chars is_digit a = true -> all_chars is_digit a' = true ->
  a +:+ String "-" b = a' +:+ String "-" b' -> a = a' /\ b = b'.
Proof.
  revert a'. induction a as [|c a IH]; intros [|c' a']; simpl.
  - intros _ _ [= ->]. done.
  - intros _ [Hc _]%andb_prop [= <- _]. discriminate Hc.
  - intros [Hc _]%andb_prop _ [= -> _]. discriminate Hc.
  - intros [_ Ha]%andb_prop [_ Ha']%andb_prop [= -> Heq].
    destruct (IH a' Ha Ha' Heq) as [-> ->]. done.
Qed.

(** The id of a session determines the counter and the time it was made
    from. *)
Lemma sessionId_inj n t n' t' :
  sessionId n t = sessionId n' t' -> n = n' /\ t = t'.
Proof.
  unfold sessionId. intros H.
  apply (inj (String.app "pty-")) in H.
  apply digits_dash_inj in H as [Hn Ht]; try apply pretty_N_digits.
  split; [by apply (inj pretty) in Hn | by apply (inj pretty) in Ht].
Qed.

Lemma spawn_shape (fs : FS) sender options (st : State) :
  let r := pty_spawn_handler node claudePath fs sender options st in
  let id := sessionId (counter st + 1) (date_now node (clock st)) in
  counter (snd r) = (counter st + 1)%N
  /\ match fst r with
     | Spawned id' pid =>
         id' = id
         /\ exists session,
              sessions (snd r) = <[id := session]> (sessions st)
              /\ ps_id session = id /\ ps_ptyProcess session = pid
              /\ ps_sender session = sender
              /\ ps_cwd session = or_else (so_cwd options) (homedir node)
     | SpawnError _ => sessions (snd r) = sessions st
     end.
Proof.
  intros r id. subst r. unfold pty_spawn_handler. simpl.
  set (st1 := {| sessions := _ |}).
  pose proof (buildUserPath_frame node fs st1) as (Hs & Hc & _).
  destruct (buildUserPath node fs st1) as [path st2]. simpl in Hs, Hc.
  destruct (shellArgs node claudePath options) as [e|args]; simpl; [done|].
  destruct (pty_spawn node _ args _ _) as [e|pid]; simpl; [done|].
  rewrite Hc. fold id. split; [done|]. split; [done|].
  eexists. rewrite Hs. split; [reflexivity|]. done.
Qed.

Lemma wellKeyed_delete id (st : State) :
  wellKeyed st -> wellKeyed (set_sessions (delete id (sessions st)) st).
Proof.
  intros Hwk id' s. simpl. rewrite lookup_delete.
  case_decide; [done|]. apply Hwk.
Qed.

Lemma wellKeyed_emit e (st : State) : wellKeyed st -> wellKeyed (emit e st).
Proof. done. Qed.

Lemma wellKeyed_spawn (fs : FS) sender options (st : State) :
  wellKeyed st ->
  wellKeyed (snd (pty_spawn_handler node claudePath fs sender options st)).
Proof.
  intros Hwk.
  pose proof (spawn_shape fs sender options st) as [Hc Hr]. cbv zeta in Hc, Hr.
  destruct (pty_spawn_handler node claudePath fs sender options st) as [r st'].
  simpl in *. intros id s Hlook. rewrite Hc.
  destruct r as [id' pid|e].
  - destruct Hr as (-> & session & Hs & Hid & _). rewrite Hs in Hlook.
    rewrite lookup_insert in Hlook. case_decide.
    + simplify_eq. split; [done|]. eexists _, _. split; [done|]. lia.
    + destruct (Hwk id s Hlook) as (? & n & t & ? & ?).
      split; [done|]. exists n, t. split; [done|]. lia.
  - rewrite Hr in Hlook.
    destruct (Hwk id s Hlook) as (? & n & t & ? & ?).
    split; [done|]. exists n, t. split; [done|]. lia.
Qed.

Lemma wellKeyed_apply (st : State) (op : @Op FS) :
  wellKeyed st -> wellKeyed (apply_op node claudePath st op).
Proof.
  intros Hwk. destruct op; simpl.
  - by apply wellKeyed_spawn.
  - unfold pty_write. by destruct (sessions st !! id).
  - unfold pty_resize. by destruct (sessions st !! id).
  - unfold pty_kill, pty_call. destruct (sessions st !! id); [|done].
    destruct (pty_throws node _); simpl; [done|].
    by apply (wellKeyed_delete id (emit _ st)).
  - unfold on_data. by destruct (negb _).
  - unfold on_exit. destruct (negb _).
    + by apply (wellKeyed_delete _ (emit _ st)).
    + by apply wellKeyed_delete.
  - intros id s. unfold on_process_exit. simpl. by rewrite lookup_empty.
Qed.

Lemma wellKeyed_run (st : State) (ops : list (@Op FS)) :
  wellKeyed st -> wellKeyed (run_ops node claudePath st ops).
Proof.
  revert st. induction ops as [|op ops IH]; intros st Hwk; [done|].
  apply IH, wellKeyed_apply, Hwk.
Qed.

Lemma wellKeyed_initial : wellKeyed initial.
Proof. intros id s. unfold initial. simpl. by rewrite lookup_empty. Qed.

(** In a well-keyed registry the next id is free. *)
Lemma next_id_free (st : State) t :
  wellKeyed st -> sessions st !! sessionId (counter st + 1) t = None.
Proof.
  intros Hwk. destruct (sessions st !! _) as [s|] eqn:Hlook; [|done].
  destruct (Hwk _ s Hlook) as (_ & n & t' & Hid & Hle).
  apply sessionId_inj in Hid as [<- _]. lia.
Qed.

End RegistryFacts.

(** X1. In every state the main process can reach from the initial one,
    each session is registered under its own id, and a successful
    [pty:spawn] returns an id that no registered session has: the new
    session overwrites none, and all other entries are kept. *)
Theorem spawned_ids_are_fresh {FS : Type} (node : Node FS) (claudePath : string)
  (ops : list (@PtyBridge.Op FS)) (fs : FS) (sender : nat)
  (options : PtyBridge.SpawnOptions) :
  let st := PtyBridge.run_ops node claudePath PtyBridge.initial ops in
  let r := PtyBridge.pty_spawn_handler node claudePath fs sender options st in
  PtyBridge.wellKeyed st
  /\ forall id pid,
       fst r = PtyBridge.Spawned id pid ->
       PtyBridge.sessions st !! id = None
       /\ (exists session,
             PtyBridge.sessions (snd r) !! id = Some session
             /\ PtyBridge.ps_id session = id)
       /\ forall id', id' <> id ->
            PtyBridge.sessions (snd r) !! id' = PtyBridge.sessions st !! id'.
Proof.
  intros st r.
  assert (Hwk : PtyBridge.wellKeyed st)
    by apply wellKeyed_run, wellKeyed_initial.
  split; [exact Hwk|]. intros id pid Hres.
  pose proof (spawn_shape node claudePath fs sender options st) as [_ Hr].
  cbv zeta in Hr. fold r in Hr. rewrite Hres in Hr.
  destruct Hr as (-> & session & Hs & Hid & _).
  split; [by apply next_id_free|]. split.
  - exists session. by rewrite Hs, lookup_insert_eq.
  - intros id' Hne. by rewrite Hs, lookup_insert_ne.
Qed.

(** X2. [pty:spawn] registers a session exactly when it returns an id.
    When it returns an error, whether the model was rejected or
    [pty.spawn] threw, the registry is what it was; the counter has
    advanced all the same, so the number is not used again. *)
Theorem spawn_outcome {FS : Type} (node : Node FS) (claudePath : string)
  (fs : FS) (sender : nat) (options : PtyBridge.SpawnOptions)
  (st : PtyBridge.State) :
  let r := PtyBridge.pty_spawn_handler node claudePath fs sender options st in
  PtyBridge.counter (snd r) = (PtyBridge.counter st + 1)%N
  /\ (forall error,
        fst r = PtyBridge.SpawnError error ->
        PtyBridge.sessions (snd r) = PtyBridge.sessions st)
  /\ (forall id pid,
        fst r = PtyBridge.Spawned id pid ->
        exists session,
          PtyBridge.sessions (snd r) = <[id := session]> (PtyBridge.sessions st)
          /\ PtyBridge.ps_ptyProcess session = pid
          /\ PtyBridge.ps_sender session = sender
          /\ PtyBridge.ps_cwd session
             = JS.or_else (PtyBridge.so_cwd options) (homedir node)).
Proof.
  intros r.
  pose proof (spawn_shape node claudePath fs sender options st) as [Hc Hr].
  cbv zeta in Hc, Hr. fold r in Hc, Hr.
  split; [exact Hc|]. split.
  - intros error Hres. by rewrite Hres in Hr.
  - intros id pid Hres. rewrite Hres in Hr.
    destruct Hr as (-> & session & Hs & _ & Hpid & Hsender & Hcwd).
    by exists session.
Qed.

(** X3. When a session spawned in a reachable state exits, the registry
    is again what it was before the spawn, the window (if it is still
    there) is sent one exit event, and [pty:list-sessions] shows no entry
    with the id of that session. *)
Theorem exit_undoes_spawn {FS : Type} (node : Node FS) (claudePath : string)
  (ops : list (@PtyBridge.Op FS)) (fs : FS) (sender : nat)
  (options : PtyBridge.SpawnOptions) (id : string) (pid : Z)
  (session : PtyBridge.PtySession) (exitCode signal : Z) :
  let st := PtyBridge.run_ops node claudePath PtyBridge.initial ops in
  let r := PtyBridge.pty_spawn_handler node claudePath fs sender options st in
  fst r = PtyBridge.Spawned id pid ->
  PtyBridge.sessions (snd r) !! id = Some session ->
  let st' := PtyBridge.on_exit node session exitCode signal (snd r) in
  PtyBridge.sessions st' = PtyBridge.sessions st
  /\ PtyBridge.effects st'
     = PtyBridge.effects (snd r)
       ++ (if isDestroyed node sender then []
           else [PtyBridge.ESendExit sender id exitCode signal])
  /\ forall info,
       info ∈ PtyBridge.pty_list_sessions st' -> PtyBridge.si_id info <> id.
Proof.
  intros st r Hres Hlook st'.
  assert (Hwk : PtyBridge.wellKeyed st)
    by apply wellKeyed_run, wellKeyed_initial.
  pose proof (spawn_shape node claudePath fs sender options st) as [_ Hr].
  cbv zeta in Hr. fold r in Hr. rewrite Hres in Hr.
  destruct Hr as (Hid & session' & Hs & Hsid & _ & Hsender & _).
  rewrite Hs, Hid, lookup_insert_eq in Hlook. simplify_eq.
  pose proof (next_id_free st (date_now node (PtyBridge.clock st)) Hwk) as Hfree.
  assert (Hback : PtyBridge.sessions st' = PtyBridge.sessions st).
  { subst st'. unfold PtyBridge.on_exit. rewrite Hsid.
    destruct (negb _); simpl; rewrite Hs; by apply delete_insert_id. }
  split; [exact Hback|]. split.
  - subst st'. unfold PtyBridge.on_exit. rewrite Hsid.
    destruct (isDestroyed node _); simpl; by rewrite ?app_nil_r.
  - intros info Hin. unfold PtyBridge.pty_list_sessions in Hin.
    apply list_elem_of_fmap in Hin as ([key s] & -> & Hkv).
    apply elem_of_map_to_list in Hkv. rewrite Hback in Hkv.
    destruct (Hwk key s Hkv) as [Hkey _]. simpl. rewrite Hkey.
    intros ->. rewrite Hfree in Hkv. discriminate.
Qed.

Lemma exit_undoes_spawn_witness :
  let session :=
    {| PtyBridge.ps_id := "pty-1-1700000000000"; PtyBridge.ps_ptyProcess := 4242;
       PtyBridge.ps_sender := 7%nat; PtyBridge.ps_model := "default";
       PtyBridge.ps_cwd := "/Users/dev";
       PtyBridge.ps_startTime := 1700000000001 |} in
  let r := PtyBridge.pty_spawn_handler Sample.mac "claude" Sample.projectFs 7%nat
             Sample.noOptions PtyBridge.initial in
  PtyBridge.sessions (PtyBridge.on_exit Sample.mac session 0 0 (snd r)) = ∅.
Proof.
  intros session r.
  apply (exit_undoes_spawn Sample.mac "claude" [] Sample.projectFs 7%nat
           Sample.noOptions "pty-1-1700000000000" 4242 session 0 0).
  - vm_compute. reflexivity.
  - vm_compute. reflexivity.
Defined.

(** X4. [pty:kill] on a registered session whose process accepts the
    kill: the process is killed once, only that entry leaves the
    registry, and a second [pty:kill] with the same id does nothing. *)
Theorem kill_removes_then_is_noop {FS : Type} (node : Node FS) (id : string)
  (st : PtyBridge.State) (session : PtyBridge.PtySession) :
  PtyBridge.sessions st !! id = Some session ->
  pty_throws node (PtyKill (PtyBridge.ps_ptyProcess session)) = None ->
  let r := PtyBridge.pty_kill node id st in
  fst r = None
  /\ PtyBridge.sessions (snd r) = delete id (PtyBridge.sessions st)
  /\ PtyBridge.effects (snd r)
     = PtyBridge.effects st
       ++ [PtyBridge.EPtyCall (PtyKill (PtyBridge.ps_ptyProcess session))]
  /\ PtyBridge.pty_kill node id (snd r) = (None, snd r).
Proof.
  intros Hlook Hok r.
  assert (Hr : r = (None,
                    PtyBridge.set_sessions (delete id (PtyBridge.sessions st))
                      (PtyBridge.emit
                         (PtyBridge.EPtyCall
                            (PtyKill (PtyBridge.ps_ptyProcess session))) st))).
  { subst r. unfold PtyBridge.pty_kill, PtyBridge.pty_call.
    by rewrite Hlook, Hok. }
  rewrite Hr. simpl. repeat split.
  unfold PtyBridge.pty_kill. simpl. by rewrite lookup_delete_eq.
Qed.

Lemma kill_removes_then_is_noop_witness :
  let session :=
    {| PtyBridge.ps_id := "pty-1-1700000000000"; PtyBridge.ps_ptyProcess := 4242;
       PtyBridge.ps_sender := 7%nat; PtyBridge.ps_model := "default";
       PtyBridge.ps_cwd := "/Users/dev";
       PtyBridge.ps_startTime := 1700000000001 |} in
  let st :=
    snd (PtyBridge.pty_spawn_handler Sample.mac "claude" Sample.projectFs 7%nat
           Sample.noOptions PtyBridge.initial) in
  PtyBridge.sessions (snd (PtyBridge.pty_kill Sample.mac "pty-1-1700000000000" st))
  = delete "pty-1-1700000000000" (PtyBridge.sessions st).
Proof.
  intros session st.
  apply (kill_removes_then_is_noop Sample.mac "pty-1-1700000000000" st session).
  - vm_compute. reflexivity.
  - reflexivity.
Defined.

(** X5. Exceptions of the pty object. A throwing [resize] is swallowed:
    [pty:resize] never lets an exception out and never touches the
    registry. A throwing [write] escapes the listener. A throwing [kill]
    escapes too, and then the session stays registered. *)
Theorem pty_exceptions {FS : Type} (node : Node FS) (id : string)
  (st : PtyBridge.State) (session : PtyBridge.PtySession) :
  PtyBridge.sessions st !! id = Some session ->
  let pid := PtyBridge.ps_ptyProcess session in
  (forall cols rows,
     PtyBridge.pty_resize node id cols rows st
     = (None, PtyBridge.emit (PtyBridge.EPtyCall (PtyResize pid cols rows)) st))
  /\ (forall data,
        PtyBridge.pty_write node id data st
        = (pty_throws node (PtyWrite pid data),
           PtyBridge.emit (PtyBridge.EPtyCall (PtyWrite pid data)) st))
  /\ (forall e,
        pty_throws node (PtyKill pid) = Some e ->
        fst (PtyBridge.pty_kill node id st) = Some e
        /\ PtyBridge.sessions (snd (PtyBridge.pty_kill node id st)) !! id
           = Some session).
Proof.
  intros Hlook pid.
  unfold PtyBridge.pty_resize, PtyBridge.pty_write, PtyBridge.pty_kill,
    PtyBridge.pty_call.
  rewrite Hlook. fold pid. split; [done|]. split; [done|].
  intros e He. by rewrite He.
Qed.

Lemma pty_exceptions_witness :
  let session :=
    {| PtyBridge.ps_id := "pty-1-1700000000000"; PtyBridge.ps_ptyProcess := 4242;
       PtyBridge.ps_sender := 7%nat; PtyBridge.ps_model := "default";
       PtyBridge.ps_cwd := "/Users/dev";
       PtyBridge.ps_startTime := 1700000000001 |} in
  let st :=
    snd (PtyBridge.pty_spawn_handler Sample.mac "claude" Sample.projectFs 7%nat
           Sample.noOptions PtyBridge.initial) in
  PtyBridge.pty_resize Sample.mac "pty-1-1700000000000" 120 40 st
  = (None, PtyBridge.emit (PtyBridge.EPtyCall (PtyResize 4242 120 40)) st).
Proof.
  intros session st.
  refine (proj1 (pty_exceptions Sample.mac "pty-1-1700000000000" st session _)
            120 40).
  vm_compute. reflexivity.
Defined.

Section StreamFacts.
Import PtyBridge.
Context {FS : Type} (node : Node FS).

Lemma on_data_chunks session (chunks : list string) (st : State) :
  let st' := foldl (fun st d => on_data node session d st) st chunks in
  sessions st' = sessions st
  /\ effects st'
     = effects st
       ++ (if isDestroyed node (ps_sender session) then []
           else map (ESendData (ps_sender session) (ps_id session)) chunks).
Proof.
  revert st. induction chunks as [|d chunks IH]; intros st; simpl.
  - split; [done|]. destruct (isDestroyed node _); by rewrite app_nil_r.
  - destruct (IH (on_data node session d st)) as [Hs He].
    rewrite Hs, He. unfold on_data.
    destruct (isDestroyed node _); simpl; [done|].
    by rewrite <- app_assoc.
Qed.

Lemma kill_all_effects (kvs : list (string * PtySession)) (st : State) :
  let st' :=
    foldl (fun st kv => emit (EPtyCall (PtyKill (ps_ptyProcess (snd kv)))) st)
      st kvs in
  effects st'
  = effects st ++ map (fun kv => EPtyCall (PtyKill (ps_ptyProcess (snd kv)))) kvs.
Proof.
  revert st. induction kvs as [|kv kvs IH]; intros st; simpl.
  - by rewrite app_nil_r.
  - rewrite IH. simpl. by rewrite <- app_assoc.
Qed.

End StreamFacts.

(** X6. Output bridging keeps the order and drops nothing: the chunks a
    pty process emits reach the window of its session as one data event
    each, tagged with the session id, in the order of emission; when the
    window is gone nothing is sent. The registry is not touched. *)
Theorem data_forwarded_in_order {FS : Type} (node : Node FS)
  (session : PtyBridge.PtySession) (chunks : list string)
  (st : PtyBridge.State) :
  let st' := foldl (fun st d => PtyBridge.on_data node session d st) st chunks in
  PtyBridge.sessions st' = PtyBridge.sessions st
  /\ PtyBridge.effects st'
     = PtyBridge.effects st
       ++ (if isDestroyed node (PtyBridge.ps_sender session) then []
           else map (PtyBridge.ESendData (PtyBridge.ps_sender session)
                       (PtyBridge.ps_id session)) chunks).
Proof. apply on_data_chunks. Qed.

(** X7. The exit hook of the host leaves no session behind: the
    registry is empty afterwards, [kill] has been called on the process
    of every session that was registered, once per session, and
    [pty:list-sessions] is empty. *)
Theorem process_exit_kills_all (st : PtyBridge.State) :
  let st' := PtyBridge.on_process_exit st in
  PtyBridge.sessions st' = ∅
  /\ (forall id session,
        PtyBridge.sessions st !! id = Some session ->
        PtyBridge.EPtyCall (PtyKill (PtyBridge.ps_ptyProcess session))
        ∈ PtyBridge.effects st')
  /\ length (PtyBridge.effects st')
     = (length (PtyBridge.effects st) + size (PtyBridge.sessions st))%nat
  /\ PtyBridge.pty_list_sessions st' = [].
Proof.
  intros st'. subst st'. unfold PtyBridge.on_process_exit. simpl.
  rewrite kill_all_effects. split; [done|]. split; [|split].
  - intros id session Hlook. apply elem_of_app. right.
    apply list_elem_of_fmap. exists (id, session). split; [done|].
    by apply elem_of_map_to_list.
  - by rewrite length_app, length_map, length_map_to_list.
  - unfold PtyBridge.pty_list_sessions. simpl. by rewrite map_to_list_empty.
Qed.

(** X8. [pty:list-sessions] reports the registry: one entry per
    registered session, built from that session and marked active, and
    nothing else. In a reachable state the ids listed are the keys of the
    registry, each once. *)
Theorem list_sessions_reports_registry {FS : Type} (node : Node FS)
  (claudePath : string) (ops : list (@PtyBridge.Op FS)) :
  let st := PtyBridge.run_ops node claudePath PtyBridge.initial ops in
  let listed := PtyBridge.pty_list_sessions st in
  length listed = size (PtyBridge.sessions st)
  /\ (forall info,
        info ∈ listed <->
        exists id session,
          PtyBridge.sessions st !! id = Some session
          /\ info = PtyBridge.sessionInfo session)
  /\ Forall (fun info => PtyBridge.si_active info = true) listed
  /\ PtyBridge.si_id <$> listed = (map_to_list (PtyBridge.sessions st)).*1
  /\ NoDup (PtyBridge.si_id <$> listed).
Proof.
  intros st listed. subst listed. unfold PtyBridge.pty_list_sessions.
  assert (Hwk : PtyBridge.wellKeyed st)
    by apply wellKeyed_run, wellKeyed_initial.
  assert (Hids : PtyBridge.si_id
                   <$> ((fun kv => PtyBridge.sessionInfo (snd kv))
                          <$> map_to_list (PtyBridge.sessions st))
                 = (map_to_list (PtyBridge.sessions st)).*1).
  { rewrite <- list_fmap_compose. apply Forall_fmap_ext_1, Forall_forall.
    intros [key s] Hin%elem_of_map_to_list. simpl.
    by destruct (Hwk key s Hin). }
  split; [by rewrite length_fmap, length_map_to_list|]. split; [|split; [|split]].
  - intros info. rewrite list_elem_of_fmap. split.
    + intros ([key s] & -> & Hin%elem_of_map_to_list). by exists key, s.
    + intros (key & s & Hlook & ->). exists (key, s). split; [done|].
      by apply elem_of_map_to_list.
  - apply Forall_fmap, Forall_true. done.
  - exact Hids.
  - rewrite Hids. apply NoDup_fst_map_to_list.
Qed.

(** ** Command lines, environment and version directories *)

(** X9. Off Windows, the command line that [pty:spawn] hands to the
    login shell after [-l -c] is read back by the shell, under POSIX
    quoting, as exactly the launcher, then [--model] and the model when a
    model was given, then the caller's arguments, one field each: no
    argument can split, merge or inject another. *)
Theorem spawn_command_line_round_trip {FS : Type} (node : Node FS)
  (claudePath : string) (options : PtyBridge.SpawnOptions) (args : list string) :
  isWin node = false ->
  PtyBridge.rawShell options = false ->
  PtyBridge.shellArgs node claudePath options = inr args ->
  exists cmd,
    args = ["-l"; "-c"; cmd]
    /\ Sh.fields cmd
       = Some (claudePath
               :: match JS.truthy (PtyBridge.so_model options) with
                  | Some model => ["--model"; model]
                  | None => []
                  end
               ++ from_option id [] (PtyBridge.so_args options)).
Proof.
  intros Hwin Hraw. unfold PtyBridge.shellArgs, PtyBridge.claudeCmd.
  rewrite Hwin, Hraw.
  destruct (PtyBridge.claudeArgs claudePath options) as [e|parts] eqn:Hparts;
    [discriminate|].
  intros [= <-]. eexists. split; [reflexivity|].
  rewrite command_line_round_trip. f_equal.
  unfold PtyBridge.claudeArgs in Hparts.
  destruct (JS.truthy (PtyBridge.so_model options)) as [model|].
  - destruct (negb _); by simplify_eq.
  - by simplify_eq.
Qed.

Lemma spawn_command_line_round_trip_witness :
  exists cmd,
    ["-l"; "-c"; "claude --model opus 'fix the '\''login'\'' page; rm -rf ~'"]
    = ["-l"; "-c"; cmd]
    /\ Sh.fields cmd
       = Some ["claude"; "--model"; "opus"; "fix the 'login' page; rm -rf ~"].
Proof.
  apply (spawn_command_line_round_trip Sample.mac "claude"
           {| PtyBridge.so_cwd := None; PtyBridge.so_model := Some "opus";
              PtyBridge.so_args := Some ["fix the 'login' page; rm -rf ~"];
              PtyBridge.so_shell := None |}
           ["-l"; "-c"; "claude --model opus 'fix the '\''login'\'' page; rm -rf ~'"]);
    reflexivity.
Defined.

(** X10. The login-shell probe runs at most once. After a first call of
    the environment builder the answer of the probe, also the empty
    answer of a probe that failed, is cached, and every later call
    returns it without running anything or changing any state. *)
Theorem login_shell_probe_runs_once {FS : Type} (node : Node FS) (fs fs' : FS)
  (st : PtyBridge.State) :
  let first := PtyBridge.getLoginShellPath node st in
  let built := PtyBridge.buildUserPath node fs st in
  PtyBridge.cachedLoginPath (snd first) = Some (fst first)
  /\ PtyBridge.getLoginShellPath node (snd first) = first
  /\ snd (PtyBridge.buildUserPath node fs' (snd built)) = snd built.
Proof.
  intros first built.
  assert (Hcached : PtyBridge.cachedLoginPath (snd first) = Some (fst first)).
  { subst first. unfold PtyBridge.getLoginShellPath.
    destruct (PtyBridge.cachedLoginPath st) eqn:Hc; [done|].
    destruct (isWin node); [done|].
    destruct (execSync node _ _); [done|]. by destruct (String.eqb _ _). }
  assert (Hagain : PtyBridge.getLoginShellPath node (snd first) = first).
  { unfold PtyBridge.getLoginShellPath at 1. rewrite Hcached. by destruct first. }
  split; [done|]. split; [done|].
  subst built. unfold PtyBridge.buildUserPath. fold first.
  destruct first as [p st1] eqn:Hfirst. simpl in *. by rewrite Hagain.
Qed.

Section SearchPathFacts.
Import JS.



(** The greatest name, in the order of [sort()], is what
    [sort().reverse()[0]] picks. *)
Lemma sortReverseHead_max (xs : list string) (m : string) :
  sortReverseHead xs = Some m ->
  m ∈ xs /\ forall x, x ∈ xs -> String.le x m.
Proof.
  unfold sortReverseHead, sortStrings. rewrite head_reverse.
  intros [pre Hsorted]%last_Some.
  pose proof (StronglySorted_merge_sort String.le xs) as Hss.
  pose proof (merge_sort_Permutation String.le xs) as Hperm.
  rewrite Hsorted in Hss, Hperm. split.
  - rewrite <- Hperm. set_solver.
  - intros x Hx. rewrite <- Hperm in Hx.
    apply elem_of_app in Hx as [Hx|Hx%list_elem_of_singleton].
    + eapply (StronglySorted_app_1_elem_of _ pre [m]); [done..|set_solver].
    + by subst.
Qed.

End SearchPathFacts.



(** X12. The version directory put on the search path is the greatest
    name of the version-manager directory in plain string order, among
    the names the platform accepts: it is one of the listed names, and no
    accepted name is greater. The order is that of [sort()], not of
    version numbers. *)
Theorem latest_version_is_greatest_name {FS : Type} (node : Node FS) (fs : FS)
  (dir : string) (keep : string -> bool) (latest : string) :
  PtyBridge.latestVersion node fs dir keep = Some latest ->
  exists versions,
    readdirSync node fs dir = inr versions
    /\ latest ∈ versions /\ keep latest = true
    /\ forall v, v ∈ versions -> keep v = true -> String.le v latest.
Proof.
  unfold PtyBridge.latestVersion.
  destruct (existsSync node fs dir); [|discriminate].
  destruct (readdirSync node fs dir) as [e|versions]; [discriminate|].
  intros [Hin Hmax]%sortReverseHead_max. exists versions. split; [done|].
  apply list_elem_of_In, filter_In in Hin as [Hin Hkeep]. split; [|split].
  - by apply list_elem_of_In.
  - done.
  - intros v Hv Hk. apply Hmax, list_elem_of_In, filter_In.
    split; [by apply list_elem_of_In | done].
Qed.

Lemma latest_version_is_greatest_name_witness :
  PtyBridge.versionDir Sample.mac Sample.nvmFs
  = ["/Users/dev/.nvm/versions/node/v9.11.1/bin"]
  /\ exists versions,
       readdirSync Sample.mac Sample.nvmFs "/Users/dev/.nvm/versions/node"
       = inr versions
       /\ "v9.11.1" ∈ versions /\ (fun _ : string => true) "v9.11.1" = true
       /\ forall v, v ∈ versions -> (fun _ : string => true) v = true ->
                    String.le v "v9.11.1".
Proof.
  split; [vm_compute; reflexivity|].
  apply (latest_version_is_greatest_name Sample.mac Sample.nvmFs
           "/Users/dev/.nvm/versions/node" (fun _ => true) "v9.11.1").
  vm_compute. reflexivity.
Defined.

(** ** The path guard and the file handlers *)

Section GuardFacts.
Import JS FileBridge.
Local Arguments String.append : simpl nomatch.
Context {FS : Type} (node : Node FS).

Lemma prefix_spec (p s : string) :
  String.prefix p s = true <-> exists rest, s = p +:+ rest.
Proof.
  revert s. induction p as [|c p IH]; intros s.
  - split; [intros _; by exists s|]. intros _. by destruct s.
  - destruct s as [|d s]; simpl.
    + split; [discriminate|]. intros [rest [=]].
    + destruct (ascii_dec c d) as [->|Hne].
      * rewrite IH. split; intros [rest H]; exists rest; [by rewrite H|].
        by injection H.
      * split; [discriminate|]. intros [rest [= -> _]]. done.
Qed.

Lemma sep_slash : isWin node = false -> sep node = "/".
Proof. unfold sep. by intros ->. Qed.

End GuardFacts.

(** X13. What the path guard lets through. A resolved path is accepted
    exactly when it is one of the allowed roots (the home directory, the
    temp directory, off Windows also [/tmp]) or a root followed by the
    path separator and more. A path that merely begins with the name of a
    root, such as a sibling of the home directory whose name extends it,
    is refused. *)
Theorem guard_accepts_roots_and_below {FS : Type} (node : Node FS)
  (resolved : string) :
  FileBridge.allowedPath node resolved = true <->
  exists root,
    root ∈ FileBridge.allowedRoots node
    /\ (resolved = root \/ exists rest, resolved = root +:+ sep node +:+ rest).
Proof.
  unfold FileBridge.allowedPath, FileBridge.allowedRoots, JS.startsWith.
  rewrite !orb_true_iff, andb_true_iff, orb_true_iff, negb_true_iff.
  rewrite !String.eqb_eq, !prefix_spec. split.
  - intros [[[[H|[rest H]]|H]|[rest H]]|[Hwin [[rest H]|H]]].
    + exists (homedir node). split; [set_solver|by left].
    + exists (homedir node). split; [set_solver|].
      right. exists rest. by rewrite H, append_assoc.
    + exists (tmpdir node). split; [set_solver|by left].
    + exists (tmpdir node). split; [set_solver|].
      right. exists rest. by rewrite H, append_assoc.
    + exists "/tmp". rewrite Hwin, (sep_slash node Hwin).
      split; [set_solver|]. right. by exists rest.
    + exists "/tmp". rewrite Hwin. split; [set_solver|by left].
  - intros (root & Hroot & Hres).
    assert (root = homedir node \/ root = tmpdir node
            \/ (isWin node = false /\ root = "/tmp")) as Hcases.
    { destruct (isWin node);
        repeat (apply elem_of_cons in Hroot as [->|Hroot]); auto;
        by apply elem_of_nil in Hroot. }
    destruct Hcases as [->|[->|[Hwin ->]]].
    + left. left. left. destruct Hres as [->|[rest ->]]; [by left|].
      right. exists rest. by rewrite append_assoc.
    + left. destruct Hres as [->|[rest ->]]; [by left; right|].
      right. exists rest. by rewrite append_assoc.
    + right. split; [done|]. rewrite (sep_slash node Hwin) in Hres.
      destruct Hres as [->|[rest ->]]; [by right|]. left. by exists rest.
Qed.

Example guard_refuses_sibling_of_home :
  FileBridge.allowedPath Sample.mac "/Users/dev" = true
  /\ FileBridge.allowedPath Sample.mac "/Users/dev/notes.md" = true
  /\ FileBridge.allowedPath Sample.mac "/Users/developer/notes.md" = false
  /\ FileBridge.allowedPath Sample.mac "/tmpfiles/x" = false.
Proof. vm_compute. repeat split. Qed.

Section HandlerFacts.
Import JS FileBridge.
Context {FS : Type} (node : Node FS).

Lemma extends_nil (w : World FS) : extends w w [].
Proof. unfold extends. by rewrite app_nil_r. Qed.

Lemma extends_snoc (w w' : World FS) new c :
  extends w w' new ->
  extends w (Build_World (w_fs w') (w_log w' ++ [c])) (new ++ [c]).
Proof. unfold extends. simpl. intros ->. by rewrite app_assoc. Qed.

Lemma dirEntry_log safePath name (w : World FS) :
  snd (dirEntry node safePath name w)
  = Build_World (w_fs w) (w_log w ++ [SysStat (path_join node [safePath; name])]).
Proof.
  unfold dirEntry, sys_stat. cbv [mbind io_bind mret io_ret].
  by destruct (statSync node (w_fs w) _).
Qed.

Lemma mapIO_cons {A B : Type} (f : A -> IO FS B) x xs (w : World FS) :
  mapIO f (x :: xs) w
  = match f x w with
    | (inr y, w1) =>
        match mapIO f xs w1 with
        | (inr ys, w2) => (inr (y :: ys), w2)
        | (inl e, w2) => (inl e, w2)
        end
    | (inl e, w1) => (inl e, w1)
    end.
Proof.
  simpl. cbv [mbind io_bind mret io_ret].
  destruct (f x w) as [[e|y] w1]; [done|].
  by destruct (mapIO f xs w1) as [[e|ys] w2].
Qed.

(** Listing the entries of a directory stats its children, and only
    them. *)
Lemma mapIO_dirEntry_log safePath (names : list string) (w : World FS) :
  exists new,
    extends w (snd (mapIO (dirEntry node safePath) names w)) new
    /\ Forall (fun c => exists name, syscallPath c = path_join node [safePath; name])
         new.
Proof.
  revert w. induction names as [|name names IH]; intros w.
  - exists []. split; [apply extends_nil|done].
  - rewrite mapIO_cons.
    pose proof (dirEntry_log safePath name w) as Hlog.
    destruct (dirEntry node safePath name w) as [[e|y] w1]; simpl in Hlog; subst w1.
    + exists [SysStat (path_join node [safePath; name])].
      split; [done|]. constructor; [by exists name|done].
    + set (w1 := Build_World _ _).
      destruct (IH w1) as (new & Hext & Hall).
      exists (SysStat (path_join node [safePath; name]) :: new). split.
      * unfold extends in *.
        destruct (mapIO _ names w1) as [[e|ys] w2]; simpl in *;
          rewrite Hext; subst w1; simpl; by rewrite <- app_assoc.
      * constructor; [by exists name|done].
Qed.

End HandlerFacts.

(** X14. The file handlers touch nothing but the validated path. Every
    [fs] call made by [fs:read], [fs:exists] and [fs:delete] is on the
    resolved path; [fs:write] also calls on its parent directory;
    [fs:list-dir] also stats the children of the resolved path. No call
    is made unless the guard accepted the resolved path. *)
Theorem handlers_touch_only_checked_paths {FS : Type} (node : Node FS)
  (path content : string) (w : FileBridge.World FS) :
  let safe := path_resolve node path in
  let confined (ok : string -> Prop) (w' : FileBridge.World FS) :=
    exists new,
      FileBridge.w_log w' = FileBridge.w_log w ++ new
      /\ Forall (fun c => ok (FileBridge.syscallPath c)) new
      /\ (new <> [] -> FileBridge.allowedPath node safe = true) in
  confined (fun p => p = safe) (snd (FileBridge.fs_read node path w))
  /\ confined (fun p => p = safe \/ p = path_dirname node safe)
       (snd (FileBridge.fs_write node path content w))
  /\ confined (fun p => p = safe) (snd (FileBridge.fs_exists node path w))
  /\ confined (fun p => p = safe \/ exists name, p = path_join node [safe; name])
       (snd (FileBridge.fs_list_dir node path w))
  /\ confined (fun p => p = safe) (snd (FileBridge.fs_delete node path w)).
Proof.
  intros safe confined. subst confined. cbv beta.
  unfold FileBridge.fs_read, FileBridge.fs_write, FileBridge.fs_exists,
    FileBridge.fs_list_dir, FileBridge.fs_delete, FileBridge.validatePath.
  fold safe.
  destruct (FileBridge.allowedPath node safe) eqn:Hallowed.
  2:{ cbv [FileBridge.try_catch mbind FileBridge.io_bind FileBridge.lift]. simpl.
      repeat split; exists []; rewrite app_nil_r; done. }
  cbv [FileBridge.try_catch mbind FileBridge.io_bind mret FileBridge.io_ret
         FileBridge.lift FileBridge.sys_exists FileBridge.sys_readFile
         FileBridge.sys_readdir FileBridge.sys_mkdir FileBridge.sys_writeFile
         FileBridge.sys_unlink FileBridge.sys_update].
  simpl.
  split; [|split; [|split; [|split]]].
  - destruct (existsSync node _ safe); simpl;
      [destruct (readFileSync node _ safe); simpl|];
      (eexists; split; [rewrite <- ?app_assoc; reflexivity|]);
      (split; [|done]); repeat (apply List.Forall_cons; [done|]); done.
  - destruct (existsSync node _ (path_dirname node safe)); simpl;
      [|destruct (mkdirSync node _ (path_dirname node safe)); simpl];
      try destruct (writeFileSync node _ safe content); simpl;
      (eexists; split; [rewrite <- ?app_assoc; reflexivity|]);
      (split; [|done]); repeat (apply List.Forall_cons; [simpl; by auto|]); done.
  - eexists. split; [reflexivity|]. split; [|done].
    repeat (apply List.Forall_cons; [done|]); done.
  - destruct (existsSync node _ safe); simpl.
    2:{ eexists. split; [reflexivity|]. split; [|done].
        apply List.Forall_cons; [by left|done]. }
    destruct (readdirSync node _ safe) as [e|names]; simpl.
    { eexists. split; [rewrite <- ?app_assoc; reflexivity|]. split; [|done].
      repeat (apply List.Forall_cons; [by left|]); done. }
    match goal with
    | |- context [FileBridge.mapIO ?f names ?w1] =>
        destruct (mapIO_dirEntry_log node safe names w1) as (new & Hext & Hnew);
        destruct (FileBridge.mapIO f names w1) as [[e|entries] w2]
    end; unfold FileBridge.extends in Hext; simpl in *;
      (exists (FileBridge.SysExists safe :: FileBridge.SysReaddir safe :: new);
       split; [by rewrite Hext, <- !app_assoc|]; split; [|done];
       repeat (apply List.Forall_cons; [by left|]);
       eapply Forall_impl; [exact Hnew|]; by right).
  - destruct (existsSync node _ safe); simpl;
      [destruct (unlinkSync node _ safe); simpl|];
      (eexists; split; [rewrite <- ?app_assoc; reflexivity|]);
      (split; [|done]); repeat (apply List.Forall_cons; [done|]); done.
Qed.

Example fs_write_creates_parent :
  FileBridge.w_log
    (snd (FileBridge.fs_write Sample.mac "/Users/dev/app/docs/a.md" "hello"
            {| FileBridge.w_fs := Sample.projectFs; FileBridge.w_log := [] |}))
  = [ FileBridge.SysExists "/Users/dev/app/docs";
      FileBridge.SysMkdir "/Users/dev/app/docs";
      FileBridge.SysWriteFile "/Users/dev/app/docs/a.md" "hello" ].
Proof. vm_compute. reflexivity. Qed.

(** X15. A missing file is not an error. On an accepted path where
    nothing exists, [fs:read] answers that the file does not exist, with
    no content and no error; [fs:list-dir] answers the same with no
    entries; [fs:delete] succeeds without calling [unlink]. Each makes
    the existence check and nothing else. *)
Theorem missing_file_is_not_an_error {FS : Type} (node : Node FS)
  (path : string) (w : FileBridge.World FS) :
  let safe := path_resolve node path in
  FileBridge.allowedPath node safe = true ->
  existsSync node (FileBridge.w_fs w) safe = false ->
  let w1 :=
    {| FileBridge.w_fs := FileBridge.w_fs w;
       FileBridge.w_log := FileBridge.w_log w ++ [FileBridge.SysExists safe] |} in
  FileBridge.fs_read node path w
  = ({| FileBridge.rr_exists := false; FileBridge.rr_content := None;
        FileBridge.rr_error := None |}, w1)
  /\ FileBridge.fs_exists node path w = (false, w1)
  /\ FileBridge.fs_list_dir node path w
     = ({| FileBridge.lr_exists := false; FileBridge.lr_entries := [];
           FileBridge.lr_error := None |}, w1)
  /\ FileBridge.fs_delete node path w
     = ({| FileBridge.or_success := true; FileBridge.or_error := None |}, w1).
Proof.
  intros safe Hallowed Hmissing w1.
  unfold FileBridge.fs_read, FileBridge.fs_exists, FileBridge.fs_list_dir,
    FileBridge.fs_delete, FileBridge.validatePath.
  fold safe. rewrite Hallowed.
  cbv [FileBridge.try_catch mbind FileBridge.io_bind mret FileBridge.io_ret
         FileBridge.lift FileBridge.sys_exists].
  simpl. rewrite Hmissing. simpl. done.
Qed.

Lemma missing_file_is_not_an_error_witness :
  let w := {| FileBridge.w_fs := Sample.projectFs; FileBridge.w_log := [] |} in
  FileBridge.fs_delete Sample.mac "/Users/dev/app/gone.txt" w
  = ({| FileBridge.or_success := true; FileBridge.or_error := None |},
     {| FileBridge.w_fs := Sample.projectFs;
        FileBridge.w_log := [FileBridge.SysExists "/Users/dev/app/gone.txt"] |}).
Proof.
  intros w.
  refine (proj2 (proj2 (proj2
            (missing_file_is_not_an_error Sample.mac "/Users/dev/app/gone.txt" w _ _)))).
  - vm_compute. reflexivity.
  - vm_compute. reflexivity.
Defined.

Section ListDirFacts.
Import FileBridge.
Context {FS : Type} (node : Node FS).

(** Stats never change the file system. *)
Lemma mapIO_dirEntry_fs safePath (names : list string) (w : World FS) :
  w_fs (snd (mapIO (dirEntry node safePath) names w)) = w_fs w.
Proof.
  revert w. induction names as [|name names IH]; intros w; [done|].
  rewrite mapIO_cons.
  pose proof (dirEntry_log node safePath name w) as Hlog.
  destruct (dirEntry node safePath name w) as [[e|y] w1]; simpl in Hlog; subst w1;
    [done|].
  specialize (IH (Build_World (w_fs w)
                    (w_log w ++ [SysStat (path_join node [safePath; name])]))).
  by destruct (mapIO _ names _) as [[e|ys] w2].
Qed.

(** The listing has an entry per name when every child can be stat'ed,
    and fails as a whole as soon as one cannot. *)
Lemma mapIO_dirEntry_result safePath (names : list string) (w : World FS) :
  match fst (mapIO (dirEntry node safePath) names w) with
  | inr entries =>
      map de_name entries = names
      /\ Forall (fun entry =>
                   exists stat,
                     statSync node (w_fs w) (de_path entry) = inr stat
                     /\ de_path entry = path_join node [safePath; de_name entry]
                     /\ de_size entry = st_size stat
                     /\ de_modified entry = st_mtimeMs stat
                     /\ de_isDirectory entry = isDirectory stat
                     /\ de_isFile entry = isFile stat) entries
  | inl e =>
      exists name,
        name ∈ names
        /\ statSync node (w_fs w) (path_join node [safePath; name]) = inl e
  end.
Proof.
  revert w. induction names as [|name names IH]; intros w; [done|].
  rewrite mapIO_cons.
  unfold dirEntry at 1, sys_stat. cbv [mbind io_bind mret io_ret].
  destruct (statSync node (w_fs w) (path_join node [safePath; name]))
    as [e|stat] eqn:Hstat.
  - simpl. exists name. split; [left|done].
  - set (w1 := Build_World _ _). specialize (IH w1).
    change (w_fs w1) with (w_fs w) in IH.
    destruct (mapIO _ names w1) as [[e|ys] w2]; simpl in *.
    + destruct IH as (name' & Hin & Hfail). exists name'. split; [by right|done].
    + destruct IH as [Hnames Hall]. split; [by rewrite Hnames|].
      constructor; [|done]. by exists stat.
Qed.

End ListDirFacts.

(** X16. [fs:list-dir] is all or nothing. On an accepted directory that
    can be read, the answer lists one entry per name, in the order of
    [readdir], each carrying the data of its own [stat]; but if a single
    child cannot be stat'ed the handler returns no entry at all, reports
    the directory as not existing, and carries the error of that child.
    In both cases the file system is left as it was. *)
Theorem list_dir_all_or_nothing {FS : Type} (node : Node FS)
  (path : string) (names : list string) (w : FileBridge.World FS) :
  let safe := path_resolve node path in
  FileBridge.allowedPath node safe = true ->
  existsSync node (FileBridge.w_fs w) safe = true ->
  readdirSync node (FileBridge.w_fs w) safe = inr names ->
  let r := fst (FileBridge.fs_list_dir node path w) in
  FileBridge.w_fs (snd (FileBridge.fs_list_dir node path w)) = FileBridge.w_fs w
  /\ (FileBridge.lr_exists r = true ->
      FileBridge.lr_error r = None
      /\ map FileBridge.de_name (FileBridge.lr_entries r) = names
      /\ Forall (fun entry =>
                   exists stat,
                     statSync node (FileBridge.w_fs w) (FileBridge.de_path entry)
                     = inr stat
                     /\ FileBridge.de_path entry
                        = path_join node [safe; FileBridge.de_name entry]
                     /\ FileBridge.de_size entry = st_size stat
                     /\ FileBridge.de_modified entry = st_mtimeMs stat)
           (FileBridge.lr_entries r))
  /\ (forall name e,
        name ∈ names ->
        statSync node (FileBridge.w_fs w) (path_join node [safe; name]) = inl e ->
        FileBridge.lr_exists r = false
        /\ FileBridge.lr_entries r = []
        /\ exists e' name',
             FileBridge.lr_error r = Some e' /\ name' ∈ names
             /\ statSync node (FileBridge.w_fs w) (path_join node [safe; name'])
                = inl e').
Proof.
  intros safe Hallowed Hexists Hreaddir r. subst r.
  unfold FileBridge.fs_list_dir, FileBridge.validatePath.
  fold safe. rewrite Hallowed.
  cbv [FileBridge.try_catch mbind FileBridge.io_bind mret FileBridge.io_ret
         FileBridge.lift FileBridge.sys_exists FileBridge.sys_readdir].
  simpl. rewrite Hexists. simpl. rewrite Hreaddir.
  set (w1 := FileBridge.Build_World _ _).
  pose proof (mapIO_dirEntry_fs node safe names w1) as Hfs.
  pose proof (mapIO_dirEntry_result node safe names w1) as Hres.
  change (FileBridge.w_fs w1) with (FileBridge.w_fs w) in Hfs, Hres.
  destruct (FileBridge.mapIO _ names w1) as [[e|entries] w2]; simpl in *.
  - split; [done|]. split; [discriminate|].
    intros name e0 _ _. split; [done|]. split; [done|].
    destruct Hres as (name' & Hin & Hfail). by exists e, name'.
  - destruct Hres as [Hnames Hall]. split; [done|]. split.
    + intros _. split; [done|]. split; [done|].
      eapply Forall_impl; [exact Hall|].
      intros entry (stat & ? & ? & ? & ? & _). by exists stat.
    + intros name e Hin Hfail. exfalso.
      rewrite <- Hnames in Hin. apply list_elem_of_fmap in Hin as (entry & -> & Hentry).
      rewrite Forall_forall in Hall.
      destruct (Hall entry Hentry) as (stat & Hstat & Hpath & _).
      rewrite <- Hpath, Hstat in Hfail. discriminate.
Qed.

Lemma list_dir_all_or_nothing_witness :
  let w := {| FileBridge.w_fs := Sample.projectFs; FileBridge.w_log := [] |} in
  map FileBridge.de_name
    (FileBridge.lr_entries (fst (FileBridge.fs_list_dir Sample.mac "/Users/dev/app/src" w)))
  = ["main.ts"].
Proof.
  intros w.
  pose proof (list_dir_all_or_nothing Sample.mac "/Users/dev/app/src" ["main.ts"] w
                ltac:(vm_compute; reflexivity) ltac:(vm_compute; reflexivity)
                ltac:(vm_compute; reflexivity)) as (_ & Hok & _).
  assert (Hlisted : FileBridge.lr_exists
                      (fst (FileBridge.fs_list_dir Sample.mac "/Users/dev/app/src" w))
                    = true) by (vm_compute; reflexivity).
  destruct (Hok Hlisted) as (_ & Hnames & _). exact Hnames.
Defined.

(** ** More on the activity scan *)

Section ScanInvariants.
Import FileBridge.
Context {FS : Type} (node : Node FS) (fs : FS) (opts : ScanOptions).
Variable P : ScanState -> Prop.

(** What a property of the scan state must survive: a path being marked
    as seen, and a recent regular file being recorded at a path not seen
    before. *)
Definition survivesMark : Prop :=
  forall st p, P st -> P {| results := results st; seen := {[p]} ∪ seen st |}.

Definition survivesPush (location : Location) : Prop :=
  forall st dir name stat,
    let fullPath := path_join node [dir; name] in
    isNoise name = false -> fullPath ∉ seen st ->
    statSync node fs fullPath = inr stat ->
    isDirectory stat = false -> isFile stat = true ->
    sinceMs opts <= st_mtimeMs stat ->
    P st ->
    P {| results := results st ++ [activityFile node opts name fullPath stat location];
         seen := {[fullPath]} ∪ seen st |}.

Lemma scanDir_preserves location levels dir st :
  survivesMark -> survivesPush location ->
  P st -> P (scanDir node fs opts levels dir location st).
Proof.
  intros Hmark Hpush. revert dir st.
  induction levels as [|levels IH]; intros dir st Hst; simpl; [done|].
  destruct (negb _); [done|].
  destruct (readdirSync node fs dir) as [e|entries]; [done|].
  apply fold_left_invariant; [|done].
  clear st Hst. intros st name Hst.
  destruct (isNoise name) eqn:Hnoise; [done|].
  destruct (decide _) as [|Hfresh]; [done|].
  destruct (statSync node fs _) as [e|stat] eqn:Hstat; [by apply Hmark|].
  destruct (isDirectory stat) eqn:Hdir; [by apply IH, Hmark|].
  destruct (isFile stat && _) eqn:Hfile; [|by apply Hmark].
  apply andb_prop in Hfile as [Hfile Hage%Z.leb_le]. simpl.
  by apply (Hpush st dir name stat).
Qed.

(** The three scans of [fs:scan-activity] keep what each scan of a root
    keeps. *)
Lemma scan_roots_preserve :
  (forall dir location st,
     location <> OtherLocation -> P st -> P (scanRoot node fs opts dir location st)) ->
  P {| results := []; seen := ∅ |} ->
  exists final,
    fs_scan_activity node fs opts = merge_sort newerFirst (results final)
    /\ P final.
Proof.
  intros Hroot Hinit. unfold fs_scan_activity. eexists. split; [reflexivity|].
  assert (Hscratch : forall bases st, P st -> P (scanScratchpads node fs opts bases st)).
  { induction bases as [|base bases IH]; intros st Hst; simpl; [done|].
    destruct (negb _); [by apply IH|].
    destruct (readdirSync node fs base) as [e|entries]; [done|].
    apply IH, fold_left_invariant; [|done].
    intros st' entry Hst'. destruct (JS.startsWith _ _); [|done].
    by apply Hroot. }
  repeat first
    [ apply Hroot; [done|] | apply Hscratch
    | match goal with |- P (if ?b then _ else _) => destruct b end ];
    done.
Qed.

Lemma scan_preserves :
  survivesMark ->
  (forall location, location <> OtherLocation -> survivesPush location) ->
  P {| results := []; seen := ∅ |} ->
  exists final,
    fs_scan_activity node fs opts = merge_sort newerFirst (results final)
    /\ P final.
Proof.
  intros Hmark Hpush. apply scan_roots_preserve.
  intros dir location st Hloc. apply scanDir_preserves; auto.
Qed.

End ScanInvariants.

(** X17. The activity scan reports no path twice, however many roots
    lead to it: the paths of the returned entries are pairwise
    different. *)
Theorem scan_activity_no_duplicates {FS : Type} (node : Node FS) (fs : FS)
  (opts : FileBridge.ScanOptions) :
  NoDup (FileBridge.af_path <$> FileBridge.fs_scan_activity node fs opts).
Proof.
  destruct (scan_preserves node fs opts
              (fun st =>
                 NoDup (FileBridge.af_path <$> FileBridge.results st)
                 /\ forall f, f ∈ FileBridge.results st ->
                              FileBridge.af_path f ∈ FileBridge.seen st))
    as (final & -> & Hnodup & _).
  - intros st p [Hnd Hseen]. split; [done|]. simpl.
    intros f Hf. apply elem_of_union. right. by apply Hseen.
  - intros location _ st dir name stat fullPath _ Hfresh _ _ _ _ [Hnd Hseen].
    simpl. split.
    + rewrite fmap_app. apply NoDup_app. split; [done|]. split.
      * intros p Hp Hp'. apply list_elem_of_singleton in Hp'. subst p.
        apply list_elem_of_fmap in Hp as (f & Hpath & Hf).
        apply Hfresh. simpl in Hpath. rewrite Hpath. by apply Hseen.
      * apply NoDup_singleton.
    + intros f [Hf|Hf%list_elem_of_singleton]%elem_of_app; apply elem_of_union.
      * right. by apply Hseen.
      * left. subst f. by apply elem_of_singleton.
  - split; [constructor|]. intros f Hf. by apply elem_of_nil in Hf.
  - by rewrite merge_sort_Permutation.
Qed.

(** X18. Every entry the activity scan returns describes a regular
    file that was stat'ed during the scan: its path is its name joined to
    a scanned directory, its size and modification time are those of the
    stat, its name is none of the pruned names, and its location is one
    of project, scratchpad and claude-config, never the fourth value of
    the type. *)
Theorem scan_activity_entries_are_files {FS : Type} (node : Node FS) (fs : FS)
  (opts : FileBridge.ScanOptions) :
  Forall
    (fun f =>
       FileBridge.af_location f <> FileBridge.OtherLocation
       /\ FileBridge.isNoise (FileBridge.af_name f) = false
       /\ exists dir stat,
            FileBridge.af_path f = path_join node [dir; FileBridge.af_name f]
            /\ statSync node fs (FileBridge.af_path f) = inr stat
            /\ isFile stat = true
            /\ FileBridge.af_size f = st_size stat
            /\ FileBridge.af_modified f = st_mtimeMs stat)
    (FileBridge.fs_scan_activity node fs opts).
Proof.
  match goal with |- Forall ?Q _ =>
    destruct (scan_preserves node fs opts
                (fun st => Forall Q (FileBridge.results st)))
      as (final & -> & Hall)
  end.
  - intros st p Hst. exact Hst.
  - intros location Hloc st dir name stat fullPath Hnoise _ Hstat _ Hfile _ Hst.
    simpl. apply Forall_app. split; [done|].
    constructor; [|done]. simpl. split; [done|]. split; [done|].
    exists dir, stat. subst fullPath. repeat split; assumption || reflexivity.
  - constructor.
  - by rewrite merge_sort_Permutation.
Qed.

(** X19. The activity scan returns nothing when the depth limit is
    negative, or when no regular file is as recent as the cutoff (a
    cutoff in the future, for instance). *)
Theorem scan_activity_empty {FS : Type} (node : Node FS) (fs : FS)
  (opts : FileBridge.ScanOptions) :
  (exists depth, FileBridge.maxDepth opts = Some depth /\ depth < 0)
  \/ (forall p stat,
        statSync node fs p = inr stat -> isFile stat = true ->
        st_mtimeMs stat < FileBridge.sinceMs opts) ->
  FileBridge.fs_scan_activity node fs opts = [].
Proof.
  intros Hcase.
  cut (exists final,
         FileBridge.fs_scan_activity node fs opts
         = merge_sort FileBridge.newerFirst (FileBridge.results final)
         /\ FileBridge.results final = []).
  { intros (final & -> & ->). reflexivity. }
  destruct Hcase as [(depth & Hdepth & Hneg)|Hold].
  - apply scan_roots_preserve; [|done].
    intros dir location st _ Hst. unfold FileBridge.scanRoot, FileBridge.maxDepthOf.
    rewrite Hdepth. simpl.
    replace (Z.to_nat (depth + 1)) with O by lia. done.
  - apply scan_preserves; [intros st p Hst; exact Hst| |done].
    intros location _ st dir name stat fullPath _ _ Hstat _ Hfile Hage _.
    specialize (Hold _ _ Hstat Hfile). lia.
Qed.

Lemma scan_activity_empty_witness :
  FileBridge.fs_scan_activity Sample.mac Sample.projectFs
    {| FileBridge.projectDir := "/Users/dev/app"; FileBridge.sinceMs := 5000;
       FileBridge.maxDepth := Some (-1) |}
  = [].
Proof.
  apply scan_activity_empty. left. exists (-1). split; [reflexivity|lia].
Defined.

(** ** More on one-shot executions *)

Section SettleFacts.
Import CliBridge.
Local Arguments String.append : simpl nomatch.

(** The execution after a run of output chunks from its start. *)
Lemma run_data_fresh (x : Exec) (before : list ProcEvent) :
  Forall isData before ->
  x_stdout x = EmptyString -> x_stderr x = EmptyString ->
  x_timer x = true -> x_signals x = [] -> x_resolved x = None ->
  let x' := run x before in
  x_stdout x' = stdoutOf before /\ x_stderr x' = stderrOf before
  /\ x_timer x' = true /\ x_signals x' = [] /\ x_resolved x' = None
  /\ x_timeout x' = x_timeout x.
Proof.
  intros Hdata Hout Herr Htimer Hsig Hres x'. subst x'.
  rewrite (run_data x before Hdata). simpl. by rewrite Hout, Herr.
Qed.

(** What the first close, error or timer event settles the promise
    with. *)
Lemma run_settles (x : Exec) (before after : list ProcEvent) (ev : ProcEvent) :
  Forall isData before -> ~ isData ev ->
  x_stdout x = EmptyString -> x_stderr x = EmptyString ->
  x_timer x = true -> x_signals x = [] -> x_resolved x = None ->
  let x' := run x (before ++ ev :: after) in
  x_resolved x'
  = Some match ev with
         | Close exitCode =>
             {| code := exitCode; stdout := stdoutOf before;
                stderr := stderrOf before |}
         | ProcError message =>
             {| code := Some (-1); stdout := EmptyString; stderr := message |}
         | _ =>
             {| code := Some (-1); stdout := stdoutOf before;
                stderr := JS.or_else (Some (stderrOf before))
                            (timeoutMessage (x_timeout x)) |}
         end
  /\ x_signals x'
     = match ev with TimerFires => ["SIGTERM"] | _ => [] end.
Proof.
  intros Hdata Hev Hout Herr Htimer Hsig Hres x'. subst x'.
  destruct (run_data_fresh x before Hdata Hout Herr Htimer Hsig Hres)
    as (Ho & He & Ht & Hs & Hr & Hto).
  rewrite run_app, run_cons.
  set (x1 := run x before) in *. split.
  - apply run_resolved.
    destruct ev; simpl in Hev; try done; simpl; unfold resolve; simpl;
      rewrite ?Ht; simpl; rewrite Hr, ?Ho, ?He, ?Hto; done.
  - rewrite run_signals.
    + destruct ev; simpl in Hev; try done; simpl; unfold resolve; simpl;
        rewrite ?Ht; simpl; rewrite ?Hr; simpl; by rewrite Hs.
    + destruct ev; simpl in Hev; try done; simpl; unfold resolve; simpl;
        rewrite ?Ht; simpl; by rewrite ?Hr.
Qed.

End SettleFacts.

(** X20. How a one-shot execution ends when the process closes or
    fails before the timer. On close the promise is settled with the exit
    code of the process and everything collected on both streams; on a
    process error, with code -1 and the error message as stderr, and the
    stdout collected so far is dropped. In neither case is a signal sent,
    and no later event, the timer included, changes the result. While
    only output arrives the promise stays pending. *)
Theorem close_and_error_results {FS : Type} (node : Node FS)
  (claudePath : string) (nodePath claudeScript : option string) (fs : FS)
  (args : list string) (options : CliBridge.ExecOptions)
  (before after : list CliBridge.ProcEvent) :
  Forall CliBridge.isData before ->
  let x0 := CliBridge.spawnClaude node claudePath nodePath claudeScript fs args
              options in
  CliBridge.x_resolved (CliBridge.run x0 before) = None
  /\ (forall exitCode,
        let x := CliBridge.run x0 (before ++ CliBridge.Close exitCode :: after) in
        CliBridge.x_resolved x
        = Some {| CliBridge.code := exitCode;
                  CliBridge.stdout := CliBridge.stdoutOf before;
                  CliBridge.stderr := CliBridge.stderrOf before |}
        /\ CliBridge.x_signals x = [])
  /\ (forall message,
        let x := CliBridge.run x0 (before ++ CliBridge.ProcError message :: after) in
        CliBridge.x_resolved x
        = Some {| CliBridge.code := Some (-1);
                  CliBridge.stdout := EmptyString;
                  CliBridge.stderr := message |}
        /\ CliBridge.x_signals x = []).
Proof.
  intros Hdata x0. split; [|split].
  - by destruct (run_data_fresh x0 before Hdata eq_refl eq_refl eq_refl eq_refl
                   eq_refl) as (_ & _ & _ & _ & Hr & _).
  - intros exitCode.
    apply (run_settles x0 before after (CliBridge.Close exitCode)); simpl; auto.
  - intros message.
    apply (run_settles x0 before after (CliBridge.ProcError message)); simpl; auto.
Qed.

Lemma close_and_error_results_witness :
  let x0 := CliBridge.spawnClaude Sample.mac "claude" None None Sample.projectFs
              ["--version"]
              {| CliBridge.eo_cwd := None; CliBridge.eo_timeout := None |} in
  CliBridge.x_resolved
    (CliBridge.run x0
       ([CliBridge.StdoutData "1.0"; CliBridge.StderrData "warn"]
        ++ CliBridge.Close (Some 0) :: [CliBridge.TimerFires]))
  = Some {| CliBridge.code := Some 0; CliBridge.stdout := "1.0";
            CliBridge.stderr := "warn" |}.
Proof.
  intros x0.
  refine (proj1 (proj1 (proj2 (close_and_error_results Sample.mac "claude" None None
            Sample.projectFs ["--version"]
            {| CliBridge.eo_cwd := None; CliBridge.eo_timeout := None |}
            [CliBridge.StdoutData "1.0"; CliBridge.StderrData "warn"]
            [CliBridge.TimerFires] _)) (Some 0))).
  repeat constructor.
Defined.

(** X21. How [spawnClaude] launches. With an interpreter and a script
    both known, the interpreter is spawned on the script followed by the
    arguments as they are, with no shell. Otherwise the login shell is
    spawned with [-l -c] and one command line, which the shell reads
    back, under POSIX quoting, as exactly the launcher followed by the
    arguments, one field each. *)
Theorem spawnClaude_launch {FS : Type} (node : Node FS)
  (claudePath : string) (nodePath claudeScript : option string) (fs : FS)
  (args : list string) (options : CliBridge.ExecOptions) :
  let call :=
    CliBridge.spawnClaudeCall node claudePath nodePath claudeScript fs args
      options in
  match JS.truthy nodePath, JS.truthy claudeScript with
  | Some interpreter, Some script =>
      CliBridge.sc_command call = interpreter
      /\ CliBridge.sc_args call = script :: args
  | _, _ =>
      CliBridge.sc_command call
      = JS.or_else (CliBridge.env_var node "SHELL") "/bin/zsh"
      /\ exists cmd,
           CliBridge.sc_args call = ["-l"; "-c"; cmd]
           /\ Sh.fields cmd = Some (claudePath :: args)
  end.
Proof.
  intros call. subst call. unfold CliBridge.spawnClaudeCall.
  assert (Hline : Sh.fields (JS.join " " (map Escape.cliEscape (claudePath :: args)))
                  = Some (claudePath :: args)).
  { rewrite (map_ext _ _ cliEscape_shellEscape).
    apply command_line_round_trip. }
  destruct (JS.truthy nodePath), (JS.truthy claudeScript); simpl;
    try done; (split; [done|]); by eexists.
Qed.

(** X22. The prompt travels as one argument. In the shell fallback of
    [cli:exec] and [cli:slash-command] the command line given to the
    login shell reads back as the launcher, [-p], the prompt exactly as
    the caller wrote it, and the fixed options: nothing in the prompt can
    end the argument or start another command. *)
Theorem prompt_is_one_argument {FS : Type} (node : Node FS)
  (claudePath : string) (nodePath claudeScript : option string) (fs : FS)
  (command : string) (cwd : option string) (timeout : option Z)
  (model slashArgs : option string) :
  JS.truthy nodePath = None \/ JS.truthy claudeScript = None ->
  (exists cmd,
     CliBridge.sc_args
       (CliBridge.x_call
          (CliBridge.cli_exec node claudePath nodePath claudeScript fs command
             cwd timeout model))
     = ["-l"; "-c"; cmd]
     /\ Sh.fields cmd
        = Some ([claudePath; "-p"; command; "--output-format"; "text"]
                ++ match JS.truthy model with
                   | Some m => ["--model"; m]
                   | None => []
                   end))
  /\ (exists cmd,
        CliBridge.sc_args
          (CliBridge.x_call
             (CliBridge.cli_slash_command node claudePath nodePath claudeScript
                fs command slashArgs cwd))
        = ["-l"; "-c"; cmd]
        /\ Sh.fields cmd
           = Some [claudePath; "-p";
                   match JS.truthy slashArgs with
                   | Some a => "/" +:+ command +:+ " " +:+ a
                   | None => "/" +:+ command
                   end]).
Proof.
  intros Hfallback.
  assert (Hcall : forall args options,
            exists cmd,
              CliBridge.sc_args
                (CliBridge.spawnClaudeCall node claudePath nodePath claudeScript
                   fs args options)
              = ["-l"; "-c"; cmd]
              /\ Sh.fields cmd = Some (claudePath :: args)).
  { intros args options.
    pose proof (command_line_round_trip (claudePath :: args)) as Hline.
    unfold CliBridge.spawnClaudeCall.
    eexists. split.
    - destruct Hfallback as [-> | H]; [reflexivity|]. rewrite H.
      by destruct (JS.truthy nodePath).
    - by rewrite (map_ext _ _ cliEscape_shellEscape). }
  split.
  - unfold CliBridge.cli_exec, CliBridge.spawnClaude. simpl. apply Hcall.
  - unfold CliBridge.cli_slash_command, CliBridge.spawnClaude. simpl.
    destruct (Hcall ["-p"; match JS.truthy slashArgs with
                           | Some a => "/" +:+ command +:+ " " +:+ a
                           | None => "/" +:+ command
                           end]
                {| CliBridge.eo_cwd := cwd; CliBridge.eo_timeout := Some 120000 |})
      as (cmd & Hargs & Hfields).
    exists cmd. done.
Qed.

Lemma prompt_is_one_argument_witness :
  exists cmd,
    CliBridge.sc_args
      (CliBridge.x_call
         (CliBridge.cli_exec Sample.mac "claude" None None Sample.projectFs
            "list files; rm -rf $HOME" None None None))
    = ["-l"; "-c"; cmd]
    /\ Sh.fields cmd
       = Some (["claude"; "-p"; "list files; rm -rf $HOME"; "--output-format"; "text"]
               ++ []).
Proof.
  refine (proj1 (prompt_is_one_argument Sample.mac "claude" None None
                   Sample.projectFs "list files; rm -rf $HOME" None None None None _)).
  by left.
Defined.

(** X23. The life of a CLI session. [cli:start-session] registers a
    session whose working directory [cli:spawn-pty] then hands out
    together with the launcher; [cli:kill-session] always replies with
    success and sends no signal to such a session, which never has a
    process; afterwards [cli:spawn-pty] answers that the session is not
    found, and a second [cli:kill-session] changes nothing. *)
Theorem cli_session_lifecycle {FS : Type} (node : Node FS) (claudePath : string)
  (fs : FS) (options : CliBridge.StartOptions) (st : CliBridge.State) :
  let started := CliBridge.cli_start_session node options st in
  let id := fst (fst started) in
  let cwd := snd (fst started) in
  let killed := CliBridge.cli_kill_session id (snd started) in
  cwd = JS.or_else (CliBridge.ss_cwd options) (process_cwd node)
  /\ CliBridge.cli_spawn_pty node claudePath fs id (snd started)
     = inr {| CliBridge.sc_command := claudePath; CliBridge.sc_args := [];
              CliBridge.sc_cwd := cwd;
              CliBridge.sc_env := CliBridge.getSpawnEnv node fs |}
  /\ fst killed = (true, [])
  /\ CliBridge.cli_spawn_pty node claudePath fs id (snd killed)
     = inl "Session not found"
  /\ CliBridge.cli_kill_session id (snd killed) = ((true, []), snd killed).
Proof.
  intros started id cwd killed. subst killed cwd id started.
  unfold CliBridge.cli_start_session, CliBridge.cli_spawn_pty,
    CliBridge.cli_kill_session.
  simpl. rewrite !lookup_insert_eq. simpl. rewrite !lookup_delete_eq.
  repeat split. f_equal. f_equal.
  apply map_eq. intros k. rewrite !lookup_delete. by case_decide.
Qed.

Section ReplyFacts.
Import JS CliBridge.

Lemma or_else_nonempty (s d : string) :
  s <> EmptyString -> or_else (Some s) d = s.
Proof.
  intros Hs. unfold or_else, truthy.
  destruct (String.eqb s EmptyString) eqn:E; [|done]. by apply String.eqb_eq in E.
Qed.

Lemma or_else_message (s d : string) :
  d <> EmptyString -> or_else (Some s) d <> EmptyString.
Proof.
  intros Hd. unfold or_else, truthy.
  destruct (String.eqb s EmptyString) eqn:E; simpl; [done|].
  by apply String.eqb_neq in E.
Qed.

End ReplyFacts.

(** X24. What the callers answer after a timeout. When the timer of
    [cli:check] fires the CLI is reported as not available, whatever it
    had printed. When the timer of the CLI path of [cli:enhance-prompt]
    fires, any non-blank standard output collected so far is returned,
    trimmed, as a successful enhancement; with none, the reply is a
    failure carrying the collected standard error or, when that is empty,
    the timeout message of 45 seconds. *)
Theorem replies_after_timeout {FS : Type} (node : Node FS)
  (claudePath : string) (nodePath claudeScript : option string) (fs : FS)
  (prompt : string) (before after : list CliBridge.ProcEvent) :
  Forall CliBridge.isData before ->
  let events := before ++ CliBridge.TimerFires :: after in
  let check :=
    CliBridge.run
      (CliBridge.cli_check_exec node claudePath nodePath claudeScript fs) events in
  let enhance :=
    CliBridge.run
      (CliBridge.enhance_cli_exec node claudePath nodePath claudeScript fs prompt)
      events in
  (exists result,
     CliBridge.x_resolved check = Some result
     /\ CliBridge.cli_check_reply claudePath result
        = {| CliBridge.available := false; CliBridge.version := None;
             CliBridge.path := None |})
  /\ (exists result,
        CliBridge.x_resolved enhance = Some result
        /\ CliBridge.enhance_cli_reply result
           = if String.eqb (JS.trim (CliBridge.stdoutOf before)) EmptyString
             then CliBridge.EnhanceFailed
                    (if String.eqb (CliBridge.stderrOf before) EmptyString
                     then "Timeout after 45s"
                     else CliBridge.stderrOf before)
             else CliBridge.Enhanced (JS.trim (CliBridge.stdoutOf before))).
Proof.
  intros Hdata events check enhance. subst check enhance events. split.
  - eexists. split.
    + apply (run_settles _ before after CliBridge.TimerFires); simpl; auto.
    + unfold CliBridge.cli_check_reply. simpl.
      by rewrite andb_false_r.
  - eexists. split.
    + apply (run_settles _ before after CliBridge.TimerFires); simpl; auto.
    + unfold CliBridge.enhance_cli_reply. simpl.
      destruct (String.eqb (JS.trim _) EmptyString); simpl; [|done].
      f_equal. rewrite or_else_nonempty.
      * unfold JS.or_else, JS.truthy.
        by destruct (String.eqb (CliBridge.stderrOf before) EmptyString).
      * apply or_else_message. discriminate.
Qed.

Lemma replies_after_timeout_witness :
  exists result,
    CliBridge.x_resolved
      (CliBridge.run
         (CliBridge.enhance_cli_exec Sample.mac "claude" None None Sample.projectFs
            "fix bug")
         ([CliBridge.StdoutData " Fix the"] ++ CliBridge.TimerFires :: []))
    = Some result
    /\ CliBridge.enhance_cli_reply result
       = if String.eqb (JS.trim (CliBridge.stdoutOf [CliBridge.StdoutData " Fix the"]))
              EmptyString
         then CliBridge.EnhanceFailed
                (if String.eqb (CliBridge.stderrOf [CliBridge.StdoutData " Fix the"])
                      EmptyString
                 then "Timeout after 45s"
                 else CliBridge.stderrOf [CliBridge.StdoutData " Fix the"])
         else CliBridge.Enhanced
                (JS.trim (CliBridge.stdoutOf [CliBridge.StdoutData " Fix the"])).
Proof.
  refine (proj2 (replies_after_timeout Sample.mac "claude" None None Sample.projectFs
                   "fix bug" [CliBridge.StdoutData " Fix the"] [] _)).
  repeat constructor.
Defined.

Example enhance_accepts_partial_output :
  CliBridge.enhance_cli_reply
    {| CliBridge.code := Some (-1); CliBridge.stdout := " Fix the";
       CliBridge.stderr := "Timeout after 45s" |}
  = CliBridge.Enhanced "Fix the".
Proof. vm_compute. reflexivity. Qed.

Section ScriptFacts.
Import JS CliBridge.
Local Arguments String.append : simpl nomatch.

(** The text after the last dot has no dot, and is the whole text when
    there is no dot at all. *)
Lemma afterLastDot_spec (s : string) :
  hasDot (afterLastDot s) = false
  /\ (if hasDot s then exists pre, s = pre +:+ "." +:+ afterLastDot s
      else afterLastDot s = s).
Proof.
  unfold hasDot. induction s as [|c s [IHdot IHsplit]]; [done|].
  cbn [afterLastDot hasChar]. fold (hasDot s). unfold hasDot.
  destruct (Ascii.eqb_spec c ".") as [->|Hc]; cbn [orb].
  - split; [done|]. destruct (hasChar "." s).
    + destruct IHsplit as [pre Hpre]. exists (String "." pre).
      change (String "." s = String "." (pre +:+ "." +:+ afterLastDot s)).
      by f_equal.
    + exists EmptyString.
      change (String "." s = String "." (afterLastDot s)). by rewrite IHsplit.
  - destruct (hasChar "." s) eqn:Hs.
    + split; [done|]. destruct IHsplit as [pre Hpre]. exists (String c pre).
      change (String c s = String c (pre +:+ "." +:+ afterLastDot s)).
      by f_equal.
    + split; [|done]. cbn [hasChar].
      destruct (Ascii.eqb_spec c "."); [done|]. by rewrite Hs.
Qed.

End ScriptFacts.

(** X25. How [cli:run-script] picks the interpreter. The type of a script
    is the text after the last dot of the whole path, or the whole path
    when it has no dot. The handler starts a process exactly when that
    text, in lower case, is one of py, js, ts, sh and bash; the process
    then gets the path as given as its last argument, the caller's
    directory or else the home directory, and the environment of
    [getSpawnEnv]. *)
Theorem run_script_dispatch {FS : Type} (node : Node FS)
  (nodePath : option string) (fs : FS) (filePath : string)
  (cwd : option string) :
  let ext := CliBridge.afterLastDot filePath in
  let supported := ["py"; "js"; "ts"; "sh"; "bash"] in
  CliBridge.hasDot ext = false
  /\ (filePath = ext \/ exists pre, filePath = pre +:+ "." +:+ ext)
  /\ match CliBridge.cli_run_script node nodePath fs filePath cwd with
     | Some call =>
         toLowerCase node ext ∈ supported
         /\ last (CliBridge.sc_args call) = Some filePath
         /\ CliBridge.sc_cwd call = JS.or_else cwd (homedir node)
         /\ CliBridge.sc_env call = CliBridge.getSpawnEnv node fs
     | None => toLowerCase node ext ∉ supported
     end.
Proof.
  intros ext supported. subst ext supported.
  destruct (afterLastDot_spec filePath) as [Hnodot Hsplit].
  split; [done|]. split.
  - destruct (CliBridge.hasDot filePath); [by right|by left].
  - unfold CliBridge.cli_run_script.
    destruct (String.eqb_spec (toLowerCase node (CliBridge.afterLastDot filePath)) "py")
      as [->|Hpy]; [repeat split; repeat constructor|].
    destruct (String.eqb_spec (toLowerCase node (CliBridge.afterLastDot filePath)) "js")
      as [->|Hjs]; [repeat split; repeat constructor|].
    destruct (String.eqb_spec (toLowerCase node (CliBridge.afterLastDot filePath)) "ts")
      as [->|Hts]; [repeat split; repeat constructor|].
    destruct (String.eqb_spec (toLowerCase node (CliBridge.afterLastDot filePath)) "sh")
      as [->|Hsh]; [repeat split; repeat constructor|].
    destruct (String.eqb_spec (toLowerCase node (CliBridge.afterLastDot filePath)) "bash")
      as [->|Hbash]; [repeat split; repeat constructor|].
    simpl. rewrite !elem_of_cons, elem_of_nil. tauto.
Qed.

Example run_script_type_may_span_directories :
  CliBridge.afterLastDot "/home/user/tools.v2/deploy" = "v2/deploy"
  /\ CliBridge.afterLastDot "/home/user/bin/bash" = "/home/user/bin/bash"
  /\ CliBridge.afterLastDot "archive.tar.SH" = "SH".
Proof. vm_compute. done. Qed.

Section ActivityFacts.
Import AppStore.
Context {A : Type}.

Lemma take_app_take {B : Type} (n : nat) (l k : list B) :
  take n (l ++ take n k) = take n (l ++ k).
Proof.
  rewrite !take_app. f_equal. rewrite take_take. f_equal. lia.
Qed.

Lemma addAll_from (calls : list (A * Z * Z)) (activities : list (ActivityItem A)) :
  (length activities <= 50)%nat ->
  addAll calls activities
  = take 50 (reverse (map (fun call => newActivity call.1.1 call.1.2 call.2) calls)
             ++ activities).
Proof.
  revert activities. induction calls as [|call calls IH]; intros activities Hlen.
  - unfold addAll. cbn [foldl map]. rewrite reverse_nil, app_nil_l.
    by rewrite take_ge.
  - unfold addAll in *. cbn [foldl map]. rewrite IH.
    + unfold addActivity. rewrite take_app_take, reverse_cons.
      by rewrite <- app_assoc.
    + unfold addActivity. rewrite length_take. lia.
Qed.

End ActivityFacts.

(** X26. The activity list of the store. After any run of [addActivity]
    calls on the initial, empty list, the store holds the activities of
    the last fifty calls, the most recent first: older ones are dropped
    for good, and the list never grows beyond fifty. *)
Theorem activities_are_newest_fifty {A : Type} (calls : list (A * Z * Z)) :
  AppStore.addAll calls []
  = take 50
      (reverse
         (map (fun call => AppStore.newActivity call.1.1 call.1.2 call.2) calls))
  /\ length (AppStore.addAll calls []) = Nat.min 50 (length calls).
Proof.
  assert (Hall := addAll_from calls [] ltac:(simpl; lia)).
  rewrite app_nil_r in Hall. split; [done|].
  rewrite Hall, length_take, length_reverse, length_map. lia.
Qed.

Example activity_ids_may_collide :
  AppStore.act_id (AppStore.newActivity "opened" 1700000000000 1700000000000)
  = AppStore.act_id (AppStore.newActivity "saved" 1700000000000 1700000000001).
Proof. reflexivity. Qed.

Section TrimFacts.
Import JS Text.

Lemma rev_app_append (s t u : string) :
  String.rev_app s t +:+ u = String.rev_app s (t +:+ u).
Proof. revert t. induction s as [|c s IH]; intros t; simpl; [done|]. by rewrite IH. Qed.

Lemma rev_cons (c : ascii) (s : string) :
  String.rev (String c s) = String.rev s +:+ String c EmptyString.
Proof. unfold String.rev. simpl. by rewrite rev_app_append. Qed.

Lemma rev_append (s t : string) :
  String.rev (s +:+ t) = String.rev t +:+ String.rev s.
Proof.
  induction s as [|c s IH].
  - change (String.rev t = String.rev t +:+ EmptyString). by rewrite append_empty_r.
  - change (String.rev (String c (s +:+ t))
            = String.rev t +:+ String.rev (String c s)).
    by rewrite !rev_cons, IH, append_assoc.
Qed.

Lemma rev_involutive (s : string) : String.rev (String.rev s) = s.
Proof.
  induction s as [|c s IH]; [done|].
  by rewrite rev_cons, rev_append, IH.
Qed.

Lemma all_chars_append (p : ascii -> bool) (s t : string) :
  all_chars p (s +:+ t) = all_chars p s && all_chars p t.
Proof.
  induction s as [|c s IH]; [done|].
  change (p c && all_chars p (s +:+ t) = p c && all_chars p s && all_chars p t).
  by rewrite IH, andb_assoc.
Qed.

Lemma all_chars_rev (p : ascii -> bool) (s : string) :
  all_chars p (String.rev s) = all_chars p s.
Proof.
  induction s as [|c s IH]; [done|].
  rewrite rev_cons, all_chars_append, IH. simpl.
  by rewrite andb_true_r, andb_comm.
Qed.

Lemma strip_blank two three (s t : string) :
  blank s = true -> strip two three (s +:+ t) = strip two three t.
Proof.
  unfold blank. induction s as [|c s IH]; [done|]. simpl.
  intros [Hc Hs]%andb_true_iff.
  change (strip two three (String c (s +:+ t)) = strip two three t).
  cbn [strip]. rewrite Hc. by apply IH.
Qed.

(** A printable ASCII character is no white space and no byte of a white
    space code point. *)
Lemma graph_not_space (a : ascii) :
  is_graph a = true -> Ascii.is_space a = false.
Proof. destruct a as [[] [] [] [] [] [] [] []]; by vm_compute. Qed.

Lemma graph_not_ws (a x y : ascii) :
  is_graph a = true ->
  ws2 a x = false /\ ws2 x a = false
  /\ ws3 a x y = false /\ ws3 y x a = false.
Proof.
  intros Ha.
  assert (Hne : forall k, (128 <=? N_of_ascii k)%N = true -> Ascii.eqb a k = false).
  { intros k Hk. destruct (Ascii.eqb_spec a k) as [->|]; [|done].
    unfold is_graph, in_range in Ha. apply andb_true_iff in Ha as [_ Ha].
    apply N.leb_le in Ha, Hk. change (N_of_ascii "~") with 126%N in Ha. lia. }
  assert (Hrange : in_range "128" "138" a = false).
  { unfold is_graph, in_range in *. apply andb_true_iff in Ha as [_ Ha].
    apply N.leb_le in Ha. change (N_of_ascii "~") with 126%N in Ha.
    apply andb_false_iff. left. apply N.leb_gt.
    change (N_of_ascii "128") with 128%N. lia. }
  unfold ws2, ws3. rewrite Hrange, !Hne by reflexivity.
  rewrite !andb_false_r. by cbn.
Qed.

Lemma strip_headOk two three (s : string) :
  (forall a x, is_graph a = true -> two a x = false) ->
  (forall a x y, is_graph a = true -> three a x y = false) ->
  headOk s = true -> strip two three s = s.
Proof.
  intros Htwo Hthree. destruct s as [|a s1]; [done|]. simpl. intros Ha.
  rewrite graph_not_space by done.
  destruct s1 as [|b s2]; [done|]. rewrite Htwo by done.
  destruct s2 as [|c s3]; [done|]. by rewrite Hthree.
Qed.

Lemma trimStart_blank (s t : string) :
  blank s = true -> trimStart (s +:+ t) = trimStart t.
Proof. apply strip_blank. Qed.

Lemma trimStartRev_blank (s t : string) :
  blank s = true -> trimStartRev (s +:+ t) = trimStartRev t.
Proof. apply strip_blank. Qed.

Lemma trimStart_headOk (s : string) : headOk s = true -> trimStart s = s.
Proof.
  apply strip_headOk.
  - intros a x Ha. by destruct (graph_not_ws a x x Ha) as (? & _).
  - intros a x y Ha. by destruct (graph_not_ws a x y Ha) as (_ & _ & ? & _).
Qed.

Lemma trimStartRev_headOk (s : string) :
  headOk s = true -> trimStartRev s = s.
Proof.
  apply strip_headOk.
  - intros a x Ha. by destruct (graph_not_ws a x x Ha) as (_ & ? & _).
  - intros a x y Ha. by destruct (graph_not_ws a x y Ha) as (_ & _ & _ & ?).
Qed.

Lemma headOk_append (s t : string) :
  s <> EmptyString -> headOk s = true -> headOk (s +:+ t) = true.
Proof. by destruct s. Qed.

Lemma graphic_headOk (s : string) : graphic s = true -> headOk s = true.
Proof.
  destruct s as [|c s]; [done|]. unfold graphic. simpl.
  by intros [? ?]%andb_true_iff.
Qed.

Lemma rev_nonempty (s : string) : s <> EmptyString -> String.rev s <> EmptyString.
Proof. intros Hs Hrev. apply Hs. by rewrite <- (rev_involutive s), Hrev. Qed.

(** [trim] removes the ASCII padding around a text that begins and ends
    with a printable ASCII character. *)
Lemma trim_padded (lead body trail : string) :
  blank lead = true -> blank trail = true ->
  headOk body = true -> headOk (String.rev body) = true ->
  trim (lead +:+ body +:+ trail) = body.
Proof.
  intros Hlead Htrail Hhead Hlast. unfold trim.
  rewrite trimStart_blank by done.
  destruct body as [|c body].
  - change (EmptyString +:+ trail) with trail.
    rewrite <- (append_empty_r trail) at 1.
    by rewrite trimStart_blank.
  - rewrite (trimStart_headOk (String c body +:+ trail)) by done.
    rewrite rev_append, trimStartRev_blank.
    + by rewrite trimStartRev_headOk, rev_involutive.
    + unfold blank. by rewrite all_chars_rev.
Qed.

End TrimFacts.

Section ApiKeyFacts.
Import JS Text CliBridge.

Lemma hasChar_append (c : ascii) (s t : string) :
  hasChar c (s +:+ t) = hasChar c s || hasChar c t.
Proof.
  induction s as [|d s IH]; [done|].
  change (Ascii.eqb d c || hasChar c (s +:+ t)
          = Ascii.eqb d c || hasChar c s || hasChar c t).
  by rewrite IH, orb_assoc.
Qed.

Lemma blank_no_equals (s : string) : blank s = true -> hasChar "=" s = false.
Proof.
  unfold blank. induction s as [|c s IH]; [done|]. simpl.
  intros [Hc Hs]%andb_true_iff. rewrite IH by done.
  destruct (Ascii.eqb_spec c "=") as [->|]; [done|done].
Qed.

Lemma splitAtFirst_append (c : ascii) (s t : string) :
  hasChar c s = false -> splitAtFirst c (s +:+ String c t) = Some (s, t).
Proof.
  induction s as [|d s IH].
  - intros _. simpl. by rewrite Ascii.eqb_refl.
  - simpl. intros [Hd Hs]%orb_false_iff.
    change (splitAtFirst c (String d (s +:+ String c t)) = Some (String d s, t)).
    simpl. by rewrite Hd, IH.
Qed.

Lemma substring_prefix (s t : string) :
  String.substring 0 (String.length s) (s +:+ t) = s.
Proof.
  induction s as [|c s IH]; [by destruct t|].
  change (String c (String.substring 0 (String.length s) (s +:+ t)) = String c s).
  by rewrite IH.
Qed.

Lemma length_append (s t : string) :
  String.length (s +:+ t) = (String.length s + String.length t)%nat.
Proof.
  induction s as [|c s IH]; [done|].
  change (S (String.length (s +:+ t)) = S (String.length s + String.length t)).
  by rewrite IH.
Qed.

(** A value between a pair of the same quote character loses the pair. *)
Lemma stripQuotes_quoted (q : ascii) (v : string) :
  q = dquote_char \/ q = "'"%char ->
  stripQuotes (String q (v +:+ String q EmptyString)) = v.
Proof.
  intros Hq. unfold stripQuotes.
  assert (Hend : String.rev (String q (v +:+ String q EmptyString))
                 = String q (String.rev v +:+ String q EmptyString)).
  { by rewrite rev_cons, rev_append. }
  assert (Hslice : sliceEnds (String q (v +:+ String q EmptyString)) = v).
  { unfold sliceEnds.
    replace (String.length (String q (v +:+ String q EmptyString)) - 2)%nat
      with (String.length v)
      by (simpl; rewrite length_append; simpl; lia).
    apply substring_prefix. }
  rewrite Hslice. unfold startsWith, endsWith. rewrite Hend.
  assert (Hhead : forall s, String.prefix (String q EmptyString) (String q s) = true).
  { intros s. simpl. destruct (ascii_dec q q); [by destruct s|done]. }
  destruct Hq as [->| ->].
  - change (String.rev dquote) with (String dquote_char EmptyString).
    unfold dquote. by rewrite !Hhead.
  - change (String.rev "'") with (String "'"%char EmptyString).
    rewrite !Hhead. by rewrite orb_true_r.
Qed.

Lemma stripQuotes_plain (v : string) :
  startsWith v dquote = false -> startsWith v "'" = false -> stripQuotes v = v.
Proof. unfold stripQuotes. by intros -> ->. Qed.

(** The key a well-formed line defines. *)
Lemma apiKeyOfLine_value (lead gap1 gap2 trail value : string) :
  blank lead = true -> blank gap1 = true -> blank gap2 = true ->
  blank trail = true ->
  graphic value = true -> stripQuotes value <> EmptyString ->
  apiKeyOfLine
    (lead +:+ "ANTHROPIC_API_KEY" +:+ gap1 +:+ "=" +:+ gap2 +:+ value +:+ trail)
  = Some (stripQuotes value).
Proof.
  intros Hlead Hgap1 Hgap2 Htrail Hvalue Hstrip.
  assert (Hne : value <> EmptyString) by (by intros ->).
  assert (Hlast : headOk (String.rev value) = true).
  { apply graphic_headOk. unfold graphic. by rewrite all_chars_rev. }
  set (body := "ANTHROPIC_API_KEY" +:+ gap1 +:+ "=" +:+ gap2 +:+ value).
  assert (Hline :
    lead +:+ "ANTHROPIC_API_KEY" +:+ gap1 +:+ "=" +:+ gap2 +:+ value +:+ trail
    = lead +:+ body +:+ trail).
  { unfold body. by rewrite !append_assoc. }
  assert (Hbody : body = ("ANTHROPIC_API_KEY" +:+ gap1) +:+ String "=" (gap2 +:+ value)).
  { unfold body. by rewrite !append_assoc. }
  assert (Htrim : trim (lead +:+ body +:+ trail) = body).
  { apply trim_padded; [done|done|done|].
    replace body with (("ANTHROPIC_API_KEY" +:+ gap1 +:+ "=" +:+ gap2) +:+ value)
      by (unfold body; by rewrite !append_assoc).
    rewrite rev_append. apply headOk_append; [by apply rev_nonempty|done]. }
  unfold apiKeyOfLine. rewrite Hline, Htrim.
  replace (String.eqb body EmptyString || startsWith body "#") with false
    by done.
  rewrite Hbody, splitAtFirst_append.
  2:{ rewrite hasChar_append, (blank_no_equals gap1) by done. reflexivity. }
  assert (Hk : trim ("ANTHROPIC_API_KEY" +:+ gap1) = "ANTHROPIC_API_KEY")
    by (by apply (trim_padded EmptyString "ANTHROPIC_API_KEY" gap1)).
  assert (Hv : trim (gap2 +:+ value) = value).
  { rewrite <- (append_empty_r value) at 1.
    apply trim_padded; [done|done|by apply graphic_headOk|done]. }
  rewrite Hk, Hv.
  rewrite String.eqb_refl.
  destruct (String.eqb_spec (stripQuotes value) EmptyString); [done|done].
Qed.

End ApiKeyFacts.

(** X27. The key a line of [~/.claude/.env] defines. A line that names
    [ANTHROPIC_API_KEY], with any ASCII white space before the name,
    around the equals sign and after the value, defines the value as the
    key when the value is not empty and is made of printable ASCII
    characters other than the space; a value wrapped in a pair of double
    quotes or of single quotes defines the text between them. *)
Theorem api_key_line (lead gap1 gap2 trail key : string) :
  Text.blank lead = true -> Text.blank gap1 = true ->
  Text.blank gap2 = true -> Text.blank trail = true ->
  Text.graphic key = true -> key <> EmptyString ->
  let line value :=
    lead +:+ "ANTHROPIC_API_KEY" +:+ gap1 +:+ "=" +:+ gap2 +:+ value +:+ trail in
  (JS.startsWith key JS.dquote = false -> JS.startsWith key "'" = false ->
   CliBridge.apiKeyOfLine (line key) = Some key)
  /\ CliBridge.apiKeyOfLine (line (JS.dquote +:+ key +:+ JS.dquote)) = Some key
  /\ CliBridge.apiKeyOfLine (line ("'" +:+ key +:+ "'")) = Some key.
Proof.
  intros Hlead Hgap1 Hgap2 Htrail Hkey Hne line. subst line. cbv beta.
  assert (Hwrap : forall q, q = JS.dquote_char \/ q = "'"%char ->
    Text.graphic (String q (key +:+ String q EmptyString)) = true).
  { intros q Hq. unfold Text.graphic in *.
    change (Text.is_graph q
            && JS.all_chars Text.is_graph (key +:+ String q EmptyString) = true).
    rewrite all_chars_append, Hkey. simpl.
    by destruct Hq as [->| ->]. }
  split; [|split].
  - intros Hdq Hsq.
    rewrite <- (stripQuotes_plain key Hdq Hsq) at 2.
    apply apiKeyOfLine_value; try done. by rewrite stripQuotes_plain.
  - change (JS.dquote +:+ key +:+ JS.dquote)
      with (String JS.dquote_char (key +:+ String JS.dquote_char EmptyString)).
    rewrite <- (stripQuotes_quoted JS.dquote_char key) at 2 by auto.
    apply apiKeyOfLine_value; try done; [by apply Hwrap; auto|].
    by rewrite stripQuotes_quoted by auto.
  - change ("'" +:+ key +:+ "'")
      with (String "'" (key +:+ String "'" EmptyString)).
    rewrite <- (stripQuotes_quoted "'" key) at 2 by auto.
    apply apiKeyOfLine_value; try done; [by apply Hwrap; auto|].
    by rewrite stripQuotes_quoted by auto.
Qed.

Lemma api_key_line_witness :
  CliBridge.apiKeyOfLine
    (" " +:+ "ANTHROPIC_API_KEY" +:+ "" +:+ "=" +:+ " "
     +:+ (JS.dquote +:+ "sk-ant-123" +:+ JS.dquote) +:+ " ")
  = Some "sk-ant-123".
Proof.
  refine (proj1 (proj2 (api_key_line " " "" " " " " "sk-ant-123" _ _ _ _ _ _)));
    (reflexivity || discriminate).
Defined.

Example api_key_line_with_export_is_skipped :
  CliBridge.apiKeyOfLine "export ANTHROPIC_API_KEY=sk-ant-123" = None
  /\ CliBridge.apiKeyOfLine "# ANTHROPIC_API_KEY=sk-ant-123" = None
  /\ CliBridge.apiKeyOfLine ("ANTHROPIC_API_KEY=" +:+ JS.dquote) = None.
Proof. vm_compute. done. Qed.

Section DotfileFacts.
Import JS Text CliBridge.

Lemma split_no_sep (c : ascii) (s : string) :
  hasChar c s = false -> split c s = [s].
Proof.
  induction s as [|d s IH]; [done|]. simpl.
  intros [Hd Hs]%orb_false_iff. by rewrite Hd, IH.
Qed.

Lemma graphic_no_newline (s : string) :
  graphic s = true -> hasChar "010" s = false.
Proof.
  unfold graphic. induction s as [|c s IH]; [done|]. simpl.
  intros [Hc Hs]%andb_true_iff. rewrite IH by done.
  destruct (Ascii.eqb_spec c "010") as [->|]; [done|done].
Qed.

Lemma apiKeyOfLine_skipped (line : string) :
  trim line = EmptyString \/ startsWith (trim line) "#" = true ->
  apiKeyOfLine line = None.
Proof.
  unfold apiKeyOfLine. intros [->| ->]; [done|]. by rewrite orb_true_r.
Qed.

Lemma firstApiKey_skip (skipped lines : list string) :
  Forall (fun line => apiKeyOfLine line = None) skipped ->
  firstApiKey (skipped ++ lines) = firstApiKey lines.
Proof.
  induction 1 as [|line skipped Hline _ IH]; [done|].
  simpl. by rewrite Hline.
Qed.

Lemma flat_map_split_lines (lines : list string) :
  Forall (fun line => hasChar "010" line = false) lines ->
  flat_map (split "010") lines = lines.
Proof.
  induction 1 as [|line lines Hline _ IH]; [done|].
  simpl. by rewrite split_no_sep, IH.
Qed.

End DotfileFacts.

(** X28. The key of the dotfile. With no key in the environment, when
    [~/.claude/.env] exists and can be read, the key returned is the
    value of the first line that defines [ANTHROPIC_API_KEY], here a
    non-empty, unquoted value of printable ASCII characters other than
    the space: the blank lines and the comment lines before it are
    skipped, and what follows it is not looked at. A non-empty key in the
    environment is returned without reading the file. *)
Theorem api_key_from_dotfile {FS : Type} (node : Node FS) (fs : FS)
  (skipped rest : list string) (key : string) :
  let envPath := path_join node [homedir node; ".claude"; ".env"] in
  let content :=
    JS.join JS.newline (skipped ++ ("ANTHROPIC_API_KEY=" +:+ key) :: rest) in
  Forall (fun line =>
            CliBridge.hasChar "010" line = false
            /\ (JS.trim line = EmptyString
                \/ JS.startsWith (JS.trim line) "#" = true)) skipped ->
  Text.graphic key = true -> key <> EmptyString ->
  JS.startsWith key JS.dquote = false -> JS.startsWith key "'" = false ->
  (JS.truthy (CliBridge.env_var node "ANTHROPIC_API_KEY") = None ->
   existsSync node fs envPath = true ->
   readFileSync node fs envPath = inr content ->
   CliBridge.getAnthropicApiKey node fs = Some key)
  /\ (forall envKey,
        JS.truthy (CliBridge.env_var node "ANTHROPIC_API_KEY") = Some envKey ->
        CliBridge.getAnthropicApiKey node fs = Some envKey).
Proof.
  intros envPath content Hskipped Hkey Hne Hdq Hsq. split.
  - intros Henv Hexists Hread. unfold CliBridge.getAnthropicApiKey.
    fold envPath. rewrite Henv, Hexists, Hread. subst content.
    unfold JS.newline. rewrite split_join by (by destruct skipped).
    rewrite flat_map_app. cbn [flat_map].
    rewrite flat_map_split_lines
      by (eapply Forall_impl; [exact Hskipped|by intros line [? _]]).
    rewrite split_no_sep.
    2:{ change (CliBridge.hasChar "010" ("ANTHROPIC_API_KEY=" +:+ key))
          with (CliBridge.hasChar "010" key).
        by apply graphic_no_newline. }
    rewrite firstApiKey_skip.
    2:{ eapply Forall_impl; [exact Hskipped|].
        intros line [_ Hline]. by apply apiKeyOfLine_skipped. }
    cbn [app CliBridge.firstApiKey].
    pose proof (apiKeyOfLine_value EmptyString EmptyString EmptyString
                  EmptyString key eq_refl eq_refl eq_refl eq_refl Hkey) as Hline.
    rewrite (stripQuotes_plain key Hdq Hsq), append_empty_r in Hline.
    specialize (Hline Hne).
    change (CliBridge.apiKeyOfLine ("ANTHROPIC_API_KEY=" +:+ key) = Some key)
      in Hline.
    by rewrite Hline.
  - intros envKey Henv. unfold CliBridge.getAnthropicApiKey. by rewrite Henv.
Qed.

Lemma api_key_from_dotfile_witness :
  CliBridge.getAnthropicApiKey Sample.mac Sample.dotenvFs = Some "sk-ant-123".
Proof.
  refine (proj1 (api_key_from_dotfile Sample.mac Sample.dotenvFs ["# keys"; " "]
                   ["OTHER=1"] "sk-ant-123" _ _ _ _ _) _ _ _);
    try (vm_compute; reflexivity); try discriminate.
  constructor; [split; [reflexivity|right; reflexivity]|].
  constructor; [split; [reflexivity|left; reflexivity]|].
  constructor.
Defined.
